(** * The knowledge agent: chunking, retrieval and intent dispatch

    A shallow embedding of [src/agents/claude_agent.py]
    (class [ProfessionalKnowledgeAgent]) and the properties of its
    chunker, its knowledge-base search, its intent parser and its
    calendar time-window rule.

    Python values are modelled as follows.
    - [str] is a sequence of Unicode code points ([list N]).
    - [int] is [Z]; [//] is [Z.div], which floors like Python's.
    - [float] and numpy's [float32] scores are binary64 floats
      ([PrimFloat.float]); every [float32] is one exactly. Comparing a
      [float32] with a Python [float] rounds the latter to [float32]
      first ([Float32]).
    - The embedding model, the FAISS index, the JSON parser and the clock
      are ports: variables of a section, instantiated in the examples. *)

From Stdlib Require Import ZArith NArith List Bool Lia Ascii String Floats.
From Stdlib Require Import DecimalString.
Import ListNotations.

Set Implicit Arguments.

(* ================================================================== *)
(** * Python strings *)

Module PyStr.

Definition str := list N.

(** A literal of the source, code point by code point. *)
Definition lit (s : string) : str :=
  List.map N_of_ascii (list_ascii_of_string s).

Definition len (A : Type) (l : list A) : Z := Z.of_nat (List.length l).

(** Truth value of a string or of a list: non-empty. *)
Definition truthy (A : Type) (l : list A) : bool :=
  match l with [] => false | _ :: _ => true end.

Definition in_range (lo hi c : N) : bool := (N.leb lo c && N.leb c hi)%bool.

(** [str.isspace] on one code point; the same set is used by
    [str.strip], [str.split] and by [\s] in a [str] pattern. *)
Definition is_space (c : N) : bool :=
  (in_range 9 13 c || in_range 28 32 c || N.eqb c 133 || N.eqb c 160
   || N.eqb c 5760 || in_range 8192 8202 c || N.eqb c 8232 || N.eqb c 8233
   || N.eqb c 8239 || N.eqb c 8287 || N.eqb c 12288)%bool.

Fixpoint drop_space (s : str) : str :=
  match s with
  | [] => []
  | c :: rest => if is_space c then drop_space rest else s
  end.

(** [s.strip()] *)
Definition strip (s : str) : str := rev (drop_space (rev (drop_space s))).

Fixpoint starts_with (p s : str) : bool :=
  match p, s with
  | [], _ => true
  | _ :: _, [] => false
  | a :: p', b :: s' => (N.eqb a b && starts_with p' s')%bool
  end.

(** [p in s] on strings: [p] occurs in [s] as a substring. *)
Fixpoint contains (p s : str) : bool :=
  (starts_with p s
   || match s with [] => false | _ :: s' => contains p s' end)%bool.

(** A keyword without white space, as all the keywords of the source. *)
Definition spaceless (kw : str) : bool :=
  forallb (fun c => negb (is_space c)) kw.

(** [any(word in s for word in words)] *)
Definition any_in (words : list str) (s : str) : bool :=
  existsb (fun word => contains word s) words.

(** [s.split()]: the maximal runs of non-space code points. [cur] is the
    run being read, last code point first. *)
Fixpoint split_from (cur : str) (s : str) : list str :=
  match s with
  | [] => if truthy cur then [rev cur] else []
  | c :: rest =>
      if is_space c
      then (if truthy cur then rev cur :: split_from [] rest
            else split_from [] rest)
      else split_from (c :: cur) rest
  end.

Definition split (s : str) : list str := split_from [] s.

(** [sep.join(parts)] *)
Fixpoint join (sep : str) (parts : list str) : str :=
  match parts with
  | [] => []
  | [p] => p
  | p :: rest => p ++ sep ++ join sep rest
  end.

(** [l[k:]] for any integer [k], negative ones counting from the end. *)
Definition slice_from (A : Type) (k : Z) (l : list A) : list A :=
  let n := len l in
  let start := if (k <? 0)%Z then Z.max 0 (k + n) else Z.min k n in
  skipn (Z.to_nat start) l.

(** [l[-k:]] as the spec words it: the last [k] elements, all of them
    when there are fewer. *)
Definition last_n (A : Type) (k : nat) (l : list A) : list A :=
  skipn (List.length l - k) l.

Section Case.
(** Case mapping outside ASCII is the Unicode database's. Upper-casing
    is per code point and may yield several; lower-casing also looks at
    the text before and after (final sigma). *)
Variable upper_ext : N -> str.
Variable lower_ext : str -> N -> str -> str.

Definition upper_cp (c : N) : str :=
  if in_range 97 122 c then [(c - 32)%N]
  else if (N.ltb c 128 || is_space c)%bool then [c]
  else upper_ext c.

(** [s.upper()] *)
Definition upper (s : str) : str := flat_map upper_cp s.

Definition lower_cp (before : str) (c : N) (after : str) : str :=
  if in_range 65 90 c then [(c + 32)%N]
  else if N.ltb c 128 then [c]
  else lower_ext before c after.

Fixpoint lower_from (before : str) (s : str) : str :=
  match s with
  | [] => []
  | c :: rest => lower_cp before c rest ++ lower_from (before ++ [c]) rest
  end.

(** [s.lower()] *)
Definition lower (s : str) : str := lower_from [] s.
End Case.

End PyStr.

Import PyStr.

(* ================================================================== *)
(** * Intent parsing ([detect_user_intent], the lines after [call_claude]) *)

Module Intent.

Inductive intent := KNOWLEDGE | CALENDAR | EMAIL | ANALYSIS.

Section Parse.
Variable upper_ext : N -> str.

(** [completion] is the text [call_claude] returned for the
    classification prompt. *)
Definition detect_user_intent (completion : str) : intent :=
  let response := upper upper_ext (strip completion) in
  if contains (lit "CALENDAR") response then CALENDAR
  else if contains (lit "EMAIL") response then EMAIL
  else if contains (lit "ANALYSIS") response then ANALYSIS
  else KNOWLEDGE.
End Parse.

End Intent.

(* ================================================================== *)
(** * Calendar time window ([extract_time_context]) *)

Module TimeWindow.

Section Window.
Variable lower_ext : str -> N -> str -> str.

Definition extract_time_context (message : str) : Z :=
  let message_lower := lower lower_ext message in
  if any_in [lit "today"; lit "this morning"; lit "this afternoon"]
            message_lower
  then 1
  else if any_in [lit "tomorrow"; lit "next day"] message_lower then 2
  else if any_in [lit "this week"; lit "week"] message_lower then 7
  else if any_in [lit "next week"] message_lower then 14
  else if any_in [lit "month"; lit "this month"] message_lower then 30
  else 7.
End Window.

End TimeWindow.

(* ================================================================== *)
(** * The chunker ([chunk_text]) *)

Module Chunker.

Definition is_terminal (c : N) : bool :=
  (N.eqb c 46 || N.eqb c 33 || N.eqb c 63)%bool.   (* . ! ? *)

Definition ends_sentence (cur : str) : bool :=
  match cur with c :: _ => is_terminal c | [] => false end.

(** [re.split(r'(?<=[.!?])\s+', text)]. A separator is a maximal run of
    white space whose first code point follows a terminal mark. [cur] is
    the piece being read, last code point first; [skipping] says that a
    separator is being consumed. *)
Fixpoint split_sentences_from (skipping : bool) (cur : str) (s : str)
  : list str :=
  match s with
  | [] => [rev cur]
  | c :: rest =>
      if is_space c then
        if skipping then split_sentences_from true cur rest
        else if ends_sentence cur
             then rev cur :: split_sentences_from true [] rest
             else split_sentences_from false (c :: cur) rest
      else split_sentences_from false (c :: cur) rest
  end.

Definition split_sentences (text : str) : list str :=
  split_sentences_from false [] text.

(** The words carried over from a closed buffer:
    [words[-overlap//5:] if len(words) > overlap//5 else words].
    Python reads [-overlap//5] as [(-overlap)//5]. *)
Definition overlap_words (overlap : Z) (words : list str) : list str :=
  if (len words >? overlap / 5)%Z
  then slice_from ((- overlap) / 5)%Z words
  else words.

(** One turn of the loop over the sentences. *)
Definition chunk_step (chunk_size overlap : Z)
           (st : list str * str) (sentence : str) : list str * str :=
  let '(chunks, current_chunk) := st in
  if ((len current_chunk + len sentence >? chunk_size)%Z
      && truthy current_chunk)%bool
  then
    let words := split current_chunk in
    (chunks ++ [strip current_chunk],
     join (lit " ") (overlap_words overlap words) ++ lit " " ++ sentence)
  else
    (chunks,
     if truthy current_chunk then current_chunk ++ lit " " ++ sentence
     else sentence).

Definition chunk_text (text : str) (chunk_size overlap : Z) : list str :=
  let sentences := split_sentences text in
  let '(chunks, current_chunk) :=
    fold_left (chunk_step chunk_size overlap) sentences ([], []) in
  if truthy (strip current_chunk)
  then chunks ++ [strip current_chunk]
  else chunks.

(** ** The buffers of the loop, piece by piece *)

(** A buffer: the words carried over from the buffer closed before it
    ([None] for the first buffer) and the sentences it has received. *)
Record buffer := {
  carried : option (list str);
  held : list str
}.

(** The text of a buffer: the carried words, then its sentences, one
    space between any two. *)
Definition buffer_text (b : buffer) : str :=
  match carried b with
  | Some ws => join (lit " ") ws ++ lit " " ++ join (lit " ") (held b)
  | None => join (lit " ") (held b)
  end.

(** Each buffer starts with the words [overlap_words] takes from the
    buffer closed before it; [before] is that buffer, if any. *)
Fixpoint chained (overlap : Z) (before : option buffer) (bufs : list buffer)
  : Prop :=
  match bufs with
  | [] => True
  | b :: rest =>
      carried b
      = option_map (fun p => overlap_words overlap (split (buffer_text p)))
                   before
      /\ chained overlap (Some b) rest
  end.

End Chunker.

(* ================================================================== *)
(** * Comparing a [float32] score with a Python [float]

    [score > min_score] in [search_knowledge_base] has a [numpy.float32]
    on its left and a Python [float] on its right. NumPy (from 2.0)
    converts the Python operand to the type of the other one and
    compares in [float32]; the conversion rounds to the nearest
    [float32], ties to the even one, and overflows to an infinity. *)

Module Float32.

(** The exact value of a float: not a number, an infinity, or [z] units
    of [2^-1074], the spacing of the smallest doubles. Both zeros are
    [FFin 0]. *)
Inductive fval := FNan | FInf (negative : bool) | FFin (z : Z).

Definition value (x : spec_float) : fval :=
  match x with
  | S754_nan => FNan
  | S754_infinity s => FInf s
  | S754_zero _ => FFin 0
  | S754_finite s m e =>
      FFin ((if s then -1 else 1) * (Z.pos m * 2 ^ (e + 1074)))
  end.

Definition units (x : float) : fval := value (Prim2SF x).

(** [a < b] on exact values; nothing compares with [FNan]. *)
Definition fval_ltb (a b : fval) : bool :=
  match a, b with
  | FNan, _ | _, FNan => false
  | _, FInf true => false
  | FInf true, _ => true
  | FInf false, _ => false
  | FFin _, FInf false => true
  | FFin x, FFin y => (x <? y)%Z
  end.

Definition fval_eqb (a b : fval) : bool :=
  match a, b with
  | FNan, FNan => true
  | FInf x, FInf y => Bool.eqb x y
  | FFin x, FFin y => (x =? y)%Z
  | _, _ => false
  end.

(** The spacing of the [float32] values around a magnitude of [n] units:
    24 significant bits, and never finer than [2^-149], which is
    [2^925] units. *)
Definition quantum (n : Z) : Z := (2 ^ Z.max 925 (Z.log2 n - 23))%Z.

(** [n / q] rounded to the nearest integer, a tie to the even one. *)
Definition rne (n q : Z) : Z :=
  let d := (n / q)%Z in
  let r := (n mod q)%Z in
  if (2 * r <? q)%Z then d
  else if (q <? 2 * r)%Z then (d + 1)%Z
  else if Z.even d then d else (d + 1)%Z.

Definition round_mag (n : Z) : Z := (rne n (quantum n) * quantum n)%Z.

(** The value converted to [float32]; a magnitude that rounds to [2^128]
    ([2^1202] units) or more becomes an infinity. *)
Definition round32 (v : fval) : fval :=
  match v with
  | FFin z =>
      let m := round_mag (Z.abs z) in
      if (2 ^ 1202 <=? m)%Z then FInf (z <? 0)%Z else FFin (Z.sgn z * m)
  | _ => v
  end.

(** [x] is the value of a [float32]. *)
Definition is_float32 (x : float) : bool :=
  fval_eqb (round32 (units x)) (units x).

(** [score > min_score], [score] a [numpy.float32] and [min_score] a
    Python [float]. *)
Definition score_above (min_score score : float) : bool :=
  fval_ltb (round32 (units min_score)) (units score).

End Float32.

(* ================================================================== *)
(** * The agent: index maintenance and knowledge-base search *)

Module Agent.

(** Exceptions that leave [search_knowledge_base]. *)
Inductive error := IndexError | JSONDecodeError | FaissError.

Inductive outcome :=
| Raised (e : error)
| Returned (text : str).

Definition bind (A B : Type) (m : error + A) (k : A -> error + B)
  : error + B :=
  match m with inl e => inl e | inr a => k a end.

Notation "x <- m ;; k" := (bind m (fun x => k))
  (at level 61, m at next level, right associativity).

(** [l[idx]]: negative positions count from the end; a position outside
    [-len(l) .. len(l)-1] raises [IndexError]. *)
Definition py_get (A : Type) (l : list A) (idx : Z) : error + A :=
  let n := len l in
  let pos := if (idx <? 0)%Z then (idx + n)%Z else idx in
  if ((0 <=? pos)%Z && (pos <? n)%Z)%bool
  then match nth_error l (Z.to_nat pos) with
       | Some a => inr a
       | None => inl IndexError
       end
  else inl IndexError.

(** A row of the [documents] table ([created_at] and [updated_at] are
    never read). The table is kept in increasing [id] order, the order
    AUTOINCREMENT inserts produce and [ORDER BY id] reads. *)
Record row := {
  row_id : Z;
  row_title : str;
  row_content : str;
  row_source : str;
  row_chunk_id : Z;
  row_metadata : option str
}.

(** [SELECT title, source, metadata FROM documents WHERE id = ?],
    [fetchone]. *)
Definition fetchone (documents : list row) (doc_id : Z) : option row :=
  find (fun r => (row_id r =? doc_id)%Z) documents.

(** [metadata_json or '{}'] *)
Definition metadata_text (r : row) : str :=
  match row_metadata r with
  | Some s => if truthy s then s else lit "{}"
  | None => lit "{}"
  end.

(** The float32 value FAISS leaves in unused result slots, with
    position [-1], when fewer than [k] entries exist. *)
Definition flt_lowest : float := (-0x1.fffffep+127)%float.

Definition newline : str := [10%N].

Definition EMPTY_MSG : str :=
  lit "Knowledge base is empty. Please add some documents first.".
Definition NO_RELEVANT_MSG : str :=
  lit "No relevant information found in the knowledge base.".

(** [str(i)] for a non-negative [i]. *)
Definition decimal (i : nat) : str :=
  lit (NilEmpty.string_of_uint (Nat.to_uint i)).

Section Ports.
(** The embedding model, the FAISS index, [json], [datetime.now] and
    the [.3f] float format. *)
Variable vec : Type.
Variable index : Type.
Variable json : Type.
Variable timestamp : Type.
Variable encode : str -> vec.
Variable index_build : list vec -> index.
(** [zip(scores[0], indices[0])] of [index.search(q, k)]; [None] when
    the library raises. *)
Variable index_search : index -> vec -> Z -> option (list (float * Z)).
Variable json_loads : str -> option json.
Variable fmt3 : float -> str.

Record result := {
  content : str;
  title : str;
  source : str;
  metadata : json;
  relevance_score : float
}.

Record search_info := {
  query : str;
  results : list result;
  timestamp_of : timestamp
}.

Record agent := {
  documents : list row;
  vector_index : option index;
  document_chunks : list (Z * str);
  recent_knowledge_searches : list search_info
}.

Definition set_recent (st : agent) (log : list search_info) : agent :=
  {| documents := documents st;
     vector_index := vector_index st;
     document_chunks := document_chunks st;
     recent_knowledge_searches := log |}.

(** ** [build_vector_index] *)
Definition build_vector_index (st : agent) : agent :=
  let fetched := List.map (fun r => (row_id r, row_content r)) (documents st) in
  let embeddings := List.map (fun dc => encode (snd dc)) fetched in
  {| documents := documents st;
     vector_index := if truthy embeddings
                     then Some (index_build embeddings)
                     else vector_index st;
     document_chunks := fetched;
     recent_knowledge_searches := recent_knowledge_searches st |}.

(** [__init__] over a database file that holds [rows]. *)
Definition init (rows : list row) : agent :=
  build_vector_index
    {| documents := rows; vector_index := None;
       document_chunks := []; recent_knowledge_searches := [] |}.

Definition next_id (documents : list row) : Z :=
  (fold_left Z.max (List.map row_id documents) 0 + 1)%Z.

(** The [INSERT] loop of [add_document]; [i] is [enumerate]'s count. *)
Fixpoint insert_chunks (documents : list row) (doc_title doc_source : str)
         (metadata_json : str) (i : Z) (chunks : list str) : list row :=
  match chunks with
  | [] => documents
  | chunk :: rest =>
      insert_chunks
        (documents ++
           [{| row_id := next_id documents; row_title := doc_title;
               row_content := chunk; row_source := doc_source;
               row_chunk_id := i; row_metadata := Some metadata_json |}])
        doc_title doc_source metadata_json (i + 1)%Z rest
  end.

(** ** [add_document]; [metadata_json] is [json.dumps(metadata or {})]. *)
Definition add_document (st : agent) (doc_title doc_content doc_source : str)
           (metadata_json : str) : agent :=
  let chunks := Chunker.chunk_text doc_content 1200 150 in
  build_vector_index
    {| documents := insert_chunks (documents st) doc_title doc_source
                                  metadata_json 0 chunks;
       vector_index := vector_index st;
       document_chunks := document_chunks st;
       recent_knowledge_searches := recent_knowledge_searches st |}.

(** ** The result loop of [search_knowledge_base]

    The guard of line 172 lets any negative position through, and tests
    the [float32] score against [min_score] in [float32]. *)
Fixpoint collect (st : agent) (min_score : float)
         (hits : list (float * Z)) : error + list result :=
  match hits with
  | [] => inr []
  | (score, idx) :: rest =>
      if ((idx <? len (document_chunks st))%Z
          && Float32.score_above min_score score)%bool
      then
        chunk <- py_get (document_chunks st) idx ;;
        match fetchone (documents st) (fst chunk) with
        | Some r =>
            parsed <- match json_loads (metadata_text r) with
                      | Some m => inr m
                      | None => inl JSONDecodeError
                      end ;;
            more <- collect st min_score rest ;;
            inr ({| content := snd chunk; title := row_title r;
                    source := row_source r; metadata := parsed;
                    relevance_score := score |} :: more)
        | None => collect st min_score rest
        end
      else collect st min_score rest
  end.

Definition format_result (i : nat) (r : result) : str :=
  lit "Source " ++ decimal i ++ lit ": " ++ title r ++ newline
  ++ lit "Content: " ++ content r ++ newline
  ++ lit "Relevance: " ++ fmt3 (relevance_score r) ++ newline ++ newline.

Fixpoint format_from (i : nat) (rs : list result) : str :=
  match rs with
  | [] => []
  | r :: rest => format_result i r ++ format_from (S i) rest
  end.

Definition format_results (rs : list result) : str :=
  lit "Relevant Information Found:" ++ newline ++ newline
  ++ format_from 1 rs.

(** The hits the index yields for a query, when the search is reached.
    [faiss.normalize_L2] is given a fresh [astype] copy, so the index
    is searched with the encoder's vector itself. *)
Definition query_hits (st : agent) (q : str) (top_k : Z)
  : option (error + list (float * Z)) :=
  match vector_index st with
  | None => None
  | Some ix =>
      if (len (document_chunks st) =? 0)%Z then None
      else Some (match index_search ix (encode q) top_k with
                 | Some hits => inr hits
                 | None => inl FaissError
                 end)
  end.

(** The list [results] at the end of the loop. *)
Definition search_results (st : agent) (q : str) (top_k : Z)
           (min_score : float) : option (error + list result) :=
  match query_hits st q top_k with
  | None => None
  | Some found => Some (hits <- found ;; collect st min_score hits)
  end.

(** ** [search_knowledge_base]; [now] is the reading of the clock. *)
Definition search_knowledge_base (st : agent) (q : str) (top_k : Z)
           (min_score : float) (now : timestamp) : agent * outcome :=
  match search_results st q top_k min_score with
  | None => (st, Returned EMPTY_MSG)
  | Some (inl e) => (st, Raised e)
  | Some (inr rs) =>
      if truthy rs then
        let info := {| query := q; results := rs; timestamp_of := now |} in
        (set_recent st
           (slice_from (-10) (recent_knowledge_searches st ++ [info])),
         Returned (format_results rs))
      else (st, Returned NO_RELEVANT_MSG)
  end.

(** ** The states the agent goes through *)
Inductive reachable : agent -> Prop :=
| reach_init rows : reachable (init rows)
| reach_add st t c s m :
    reachable st -> reachable (add_document st t c s m)
| reach_search st q top_k min_score now :
    reachable st ->
    reachable (fst (search_knowledge_base st q top_k min_score now)).

(** ** Reading the hits *)

(** The slot FAISS leaves when fewer than [k] entries exist. *)
Definition padding : float * Z := (flt_lowest, (-1)%Z).

(** Every retained chunk has its row, and the row's metadata parses. *)
Definition chunks_resolve (st : agent) : Prop :=
  Forall (fun dc => exists r m,
              fetchone (documents st) (fst dc) = Some r
              /\ json_loads (metadata_text r) = Some m)
         (document_chunks st).

(** The result entry of the chunk at a live position. *)
Definition result_at (st : agent) (h : float * Z) : option result :=
  match nth_error (document_chunks st) (Z.to_nat (snd h)) with
  | Some chunk =>
      match fetchone (documents st) (fst chunk) with
      | Some r =>
          match json_loads (metadata_text r) with
          | Some m => Some {| content := snd chunk; title := row_title r;
                              source := row_source r; metadata := m;
                              relevance_score := fst h |}
          | None => None
          end
      | None => None
      end
  | None => None
  end.

(** The hit passes the score test of the loop. *)
Definition above (min_score : float) (h : float * Z) : bool :=
  Float32.score_above min_score (fst h).

(** Scores in the order returned, as the spec's test property reads
    them: each strictly below the one before. *)
Fixpoint strictly_descending (scores : list float) : bool :=
  match scores with
  | a :: (b :: _) as rest =>
      (PrimFloat.ltb b a && strictly_descending rest)%bool
  | _ => true
  end.

End Ports.

End Agent.

(* ================================================================== *)
(** * A small instance of the ports

    Every text is given the same unit vector, so every indexed entry
    scores 1 against every query; the index is its number of entries and
    answers in build order, filling the unused slots as FAISS does. *)

Module Scenario.
Import Agent.

Definition toy_encode (_ : str) : unit := tt.

Definition toy_build (vs : list unit) : nat := List.length vs.

Definition toy_search (n : nat) (_ : unit) (k : Z) : option (list (float * Z)) :=
  if (k <=? 0)%Z then None
  else
    let m := Nat.min (Z.to_nat k) n in
    Some (List.map (fun i => (1%float, Z.of_nat i)) (seq 0 m)
          ++ repeat padding (Z.to_nat k - m)).

Definition toy_loads (_ : str) : option unit := Some tt.

Definition toy_fmt3 (_ : float) : str := lit "1.000".

(** The default [min_score], Python's double [0.2]. *)
Definition default_min_score : float := 0x1.999999999999ap-3%float.

Definition toy_agent : Type := agent nat unit nat.

Definition start : toy_agent := init unit nat toy_encode toy_build [].

Definition one_document : toy_agent :=
  add_document toy_encode toy_build start
               (lit "Notes") (lit "alpha.") (lit "manual") (lit "{}").

(** The same document added a second time. *)
Definition two_copies : toy_agent :=
  add_document toy_encode toy_build one_document
               (lit "Notes") (lit "alpha.") (lit "manual") (lit "{}").

Definition toy_results (st : toy_agent) (q : str) (top_k : Z) (min_score : float)
  : option (error + list (result unit)) :=
  search_results toy_encode toy_search toy_loads st q top_k min_score.

Definition toy_query (st : toy_agent) (q : str) (top_k : Z) (min_score : float)
           (now : nat) : toy_agent * outcome :=
  search_knowledge_base toy_encode toy_search toy_loads toy_fmt3
                        st q top_k min_score now.

(** [n] queries in a row, the clock reading 0, 1, ... *)
Fixpoint ask_from (st : toy_agent) (now n : nat) : toy_agent :=
  match n with
  | O => st
  | S n' =>
      ask_from (fst (toy_query st (lit "alpha") 5 default_min_score now))
               (S now) n'
  end.

End Scenario.

(* ================================================================== *)
(** * The vector index *)

Module FlatIndex.
Import Agent.

(** [h1] is to come before [h2]: a higher score, or the same score and
    the choice [first_of] between the two positions. *)
Definition outranks (first_of : Z -> Z -> bool) (h1 h2 : float * Z) : bool :=
  (PrimFloat.ltb (fst h2) (fst h1)
   || (negb (PrimFloat.ltb (fst h1) (fst h2))
       && first_of (snd h1) (snd h2)))%bool.

Fixpoint place (first_of : Z -> Z -> bool) (h : float * Z)
         (ranked : list (float * Z)) : list (float * Z) :=
  match ranked with
  | [] => [h]
  | h' :: rest =>
      if outranks first_of h' h then h' :: place first_of h rest
      else h :: ranked
  end.

(** The hits, each placed among the ones after it. *)
Definition rank (first_of : Z -> Z -> bool) (all : list (float * Z))
  : list (float * Z) :=
  fold_right (place first_of) [] all.

Section Index.
(** The vectors, [faiss.normalize_L2] on one of them, the inner product
    in [float32], and the library's choice between two entries of one
    score, which may depend on [k] and on all the scored entries. *)
Variable vec : Type.
Variable normalize : vec -> vec.
Variable inner : vec -> vec -> float.
Variable prefer : Z -> list (float * Z) -> Z -> Z -> bool.

(** Lines 145-149 of [build_vector_index]: the embeddings are normalised
    in place and added, in order, to an [IndexFlatIP], which keeps them
    as they are. *)
Definition index_build (embeddings : list vec) : list vec :=
  List.map normalize embeddings.

(** Every entry with its score against [q] and its position, which
    counts from [first]. *)
Fixpoint scored (q : vec) (first : Z) (entries : list vec)
  : list (float * Z) :=
  match entries with
  | [] => []
  | v :: rest => (inner q v, first) :: scored q (first + 1) rest
  end.

(** Modelled from the spec: the search of the vector index, which is the
    FAISS library's and not part of the sources. Section 4.2 has it score
    every entry by its inner product with the query and return the [k]
    highest, highest first, all entries when [k] exceeds their number.
    Which of two entries of one score comes first is left to [prefer]
    (the spec says the earlier-built, the library answers otherwise);
    the slots that no entry fills hold [padding], as FAISS leaves them,
    and a [k] that is not positive makes the library raise. *)
Definition search (ix : list vec) (q : vec) (k : Z)
  : option (list (float * Z)) :=
  if (k <=? 0)%Z then None
  else
    let all := scored q 0 ix in
    let live := firstn (Z.to_nat k) (rank (prefer k all) all) in
    Some (live ++ repeat padding (Z.to_nat k - List.length live)).

(** The score of a retained chunk against a query: the index holds the
    normalised embedding of the chunk, and is searched with the
    embedding of the query as the encoder gives it. *)
Definition entry_score (encode : str -> vec) (q : str) (dc : Z * str)
  : float :=
  inner (encode q) (normalize (encode (snd dc))).

End Index.

End FlatIndex.

(* ================================================================== *)
(** * Two instances of the vector index

    [Shelf]: a text is encoded as its length, and an entry scores 1
    against a query of its own length, 0.5 against one a code point
    longer or shorter, 0.25 against any other; of two entries of one
    score the later-built comes first, which is how [IndexFlatIP]
    answers when asked for both copies of a document stored twice.
    [Raw]: vectors have one coordinate and the encoder gives every text
    the vector 2, which is not a unit vector. *)

Module Shelf.
Import Agent.

Definition by_length (text : str) : Z := len text.

Definition same (v : Z) : Z := v.

Definition closeness (q v : Z) : float :=
  if (q =? v)%Z then 1%float
  else if (Z.abs (q - v) =? 1)%Z then 0.5%float
  else 0.25%float.

Definition later_first (_ : Z) (_ : list (float * Z)) (i j : Z) : bool :=
  (j <? i)%Z.

Definition shelf_build : list Z -> list Z := FlatIndex.index_build same.

Definition shelf_search : list Z -> Z -> Z -> option (list (float * Z)) :=
  FlatIndex.search closeness later_first.

Definition shelf_agent : Type := agent (list Z) unit nat.

Definition shelf_start : shelf_agent := init unit nat by_length shelf_build [].

(** One content stored under two titles. *)
Definition two_alike : shelf_agent :=
  add_document by_length shelf_build
    (add_document by_length shelf_build shelf_start
       (lit "First") (lit "alpha.") (lit "manual") (lit "{}"))
    (lit "Second") (lit "alpha.") (lit "manual") (lit "{}").

(** Three documents of one chunk each, the closest to "alpha." last. *)
Definition three_notes : shelf_agent :=
  add_document by_length shelf_build
    (add_document by_length shelf_build
       (add_document by_length shelf_build shelf_start
          (lit "Pi") (lit "pi.") (lit "manual") (lit "{}"))
       (lit "Beta") (lit "beta.") (lit "manual") (lit "{}"))
    (lit "Alpha") (lit "alpha.") (lit "manual") (lit "{}").

Definition shelf_results (st : shelf_agent) (q : str) (top_k : Z)
           (min_score : float) : option (error + list (result unit)) :=
  search_results by_length shelf_search Scenario.toy_loads
                 st q top_k min_score.

End Shelf.

Module Raw.
Import Agent.

Definition twice (_ : str) : float := 2%float.

Definition unit_length (v : float) : float := (v / abs v)%float.

Definition earlier_first (_ : Z) (_ : list (float * Z)) (i j : Z) : bool :=
  (i <? j)%Z.

Definition raw_build : list float -> list float :=
  FlatIndex.index_build unit_length.

Definition raw_search : list float -> float -> Z -> option (list (float * Z)) :=
  FlatIndex.search PrimFloat.mul earlier_first.

Definition raw_agent : Type := agent (list float) unit nat.

Definition one_note : raw_agent :=
  add_document twice raw_build (init unit nat twice raw_build [])
               (lit "Alpha") (lit "alpha.") (lit "manual") (lit "{}").

End Raw.

(* ================================================================== *)
(** * More of Python's strings, for the other functions *)

Module PyText.

(** [not s.strip()]: nothing but white space, the empty string included. *)
Definition blank (s : str) : bool := forallb is_space s.

(** The code points that are not white space, in order. *)
Definition ink (s : str) : str := filter (fun c => negb (is_space c)) s.

(** Code points and joining spaces that a list of pieces needs. *)
Fixpoint weight (pieces : list str) : Z :=
  match pieces with
  | [] => 0
  | p :: rest => (1 + len p + weight rest)%Z
  end.

(** Something has been kept: a chunk is closed or the buffer holds ink. *)
Definition kept (st : list str * str) : Prop :=
  fst st <> [] \/ blank (snd st) = false.

(** A closed chunk: not empty, and with no white space around it. *)
Definition trimmed (chunk : str) : Prop := chunk <> [] /\ strip chunk = chunk.

(** Lower case of an ASCII code point; others are left as they are. *)
Definition ascii_lower (c : N) : N :=
  if in_range 65 90 c then (c + 32)%N else c.

Definition is_ascii (c : N) : bool := N.ltb c 128.

End PyText.

(* ================================================================== *)
(** * Terms for the table and the chunk list *)

Module Table.
Import Agent.

(** What [build_vector_index] retains of a row. *)
Definition as_chunk (r : row) : Z * str := (row_id r, row_content r).

Definition ids (documents : list row) : list Z := List.map row_id documents.

(** [n] consecutive integers from [first]. *)
Definition count_from (first : Z) (n : nat) : list Z :=
  List.map (fun k => (first + Z.of_nat k)%Z) (seq 0 n).

End Table.

(* ================================================================== *)
(** * The conversation context ([build_conversation_context]) *)

Module Dialogue.
Import Agent.

Section Context.
Variables index json timestamp : Type.
(** [role.title()] *)
Variable str_title : str -> str.

(** The lines for the history: the last ten turns. [chat_history] is
    [None] or a list of (role, message) pairs. *)
Definition history_parts (chat_history : option (list (str * str)))
  : list str :=
  match chat_history with
  | Some (turn :: turns) =>
      let recent_history := slice_from (-10) (turn :: turns) in
      if truthy recent_history
      then [lit "Recent Conversation:"]
           ++ List.map (fun rm => str_title (fst rm) ++ lit ": " ++ snd rm)
                       recent_history
           ++ [lit ""]
      else []
  | _ => []
  end.

(** The lines for the log: the last three searches. *)
Definition search_parts (log : list (search_info json timestamp))
  : list str :=
  if truthy log
  then [lit "Recent Knowledge Base Searches:"]
       ++ flat_map (fun search =>
                      [lit "Query: " ++ query search;
                       lit "Found " ++ decimal (List.length (results search))
                       ++ lit " relevant documents"])
                   (slice_from (-3) log)
       ++ [lit ""]
  else [].

Definition context_parts (st : agent index json timestamp)
           (chat_history : option (list (str * str))) : list str :=
  history_parts chat_history ++ search_parts (recent_knowledge_searches st).

Definition build_conversation_context (st : agent index json timestamp)
           (chat_history : option (list (str * str))) : str :=
  join newline (context_parts st chat_history).

End Context.

End Dialogue.

(* ================================================================== *)
(** * The e-mail handler ([handle_email_request]) *)

Module Email.

(** [s.split(sep)] for a separator of one code point. [cur] is the piece
    being read, last code point first. *)
Fixpoint split_on (sep : N) (cur : str) (s : str) : list str :=
  match s with
  | [] => [rev cur]
  | c :: rest =>
      if N.eqb c sep then rev cur :: split_on sep [] rest
      else split_on sep (c :: cur) rest
  end.

(** [s.replace(pat, '')] for a non-empty [pat]: the occurrences of [pat]
    are dropped, from the left, each start looked for after the end of
    the one before. [skip] counts what is left to drop of an occurrence. *)
Fixpoint remove_all (pat : str) (skip : nat) (s : str) : str :=
  match s with
  | [] => []
  | c :: rest =>
      match skip with
      | S k => remove_all pat k rest
      | O => if starts_with pat s
             then remove_all pat (List.length pat - 1) rest
             else c :: remove_all pat 0 rest
      end
  end.

Definition TO : str := lit "TO:".
Definition SUBJECT : str := lit "SUBJECT:".
Definition BODY : str := lit "BODY:".

(** The variables of the parsing loop. *)
Record parsed := {
  to_email : option str;
  subject : option str;
  body_lines : list str;
  body_started : bool
}.

Definition parse_start : parsed :=
  {| to_email := None; subject := None; body_lines := [];
     body_started := false |}.

(** One turn of [for line in lines]. *)
Definition parse_line (p : parsed) (line : str) : parsed :=
  if starts_with TO line then
    {| to_email := Some (strip (remove_all TO 0 line));
       subject := subject p; body_lines := body_lines p;
       body_started := body_started p |}
  else if starts_with SUBJECT line then
    {| to_email := to_email p;
       subject := Some (strip (remove_all SUBJECT 0 line));
       body_lines := body_lines p; body_started := body_started p |}
  else if starts_with BODY line then
    {| to_email := to_email p; subject := subject p;
       body_lines := body_lines p; body_started := true |}
  else if body_started p then
    {| to_email := to_email p; subject := subject p;
       body_lines := body_lines p ++ [line];
       body_started := body_started p |}
  else p.

Definition parse_lines (lines : list str) : parsed :=
  fold_left parse_line lines parse_start.

Definition parse_draft (email_draft : str) : parsed :=
  parse_lines (split_on 10 [] email_draft).

(** [body = '\n'.join(body_lines).strip()] *)
Definition body_of (p : parsed) : str :=
  strip (join Agent.newline (body_lines p)).

(** A line that starts with none of the three markers. *)
Definition plain (line : str) : bool :=
  negb (starts_with TO line || starts_with SUBJECT line
        || starts_with BODY line).

(** The lines after the first one that starts with [BODY:]. *)
Fixpoint after_body (lines : list str) : list str :=
  match lines with
  | [] => []
  | line :: rest => if starts_with BODY line then rest else after_body rest
  end.

Section Handler.
Variable upper_ext : N -> str.
Variable lower_ext : str -> N -> str -> str.

(** [any(word in user_message.lower() for word in [...])] *)
Definition is_draft_request (user_message : str) : bool :=
  any_in [lit "draft"; lit "drafts"; lit "save draft"; lit "create draft"]
         (lower lower_ext user_message).

(** [to_email and "MISSING" not in to_email.upper()] *)
Definition usable (to : option str) : bool :=
  match to with
  | Some t => (truthy t && negb (contains (lit "MISSING") (upper upper_ext t)))%bool
  | None => false
  end.

(** The ways out of the handler: the integration is missing; a draft is
    created ([create_email_draft]); the recipient is asked for; the
    message is sent ([send_email]). *)
Inductive email_action :=
| Unavailable
| CreateDraft (to : str) (subj : option str) (body : str)
| AskRecipient (subj : option str) (body : str)
| SendEmail (to : str) (subj : option str) (body : str).

(** [gmail_service] says whether the agent has the service;
    [email_draft] is the text [call_claude] returned. *)
Definition handle_email_request (gmail_service : bool)
           (user_message email_draft : str) : email_action :=
  if negb gmail_service then Unavailable
  else
    let p := parse_draft email_draft in
    if is_draft_request user_message then
      CreateDraft (if usable (to_email p)
                   then match to_email p with Some t => t | None => [] end
                   else [])
                  (subject p) (body_of p)
    else if negb (usable (to_email p)) then AskRecipient (subject p) (body_of p)
    else SendEmail (match to_email p with Some t => t | None => [] end)
                   (subject p) (body_of p).

End Handler.

End Email.

(* ================================================================== *)
(** * Uploading a document (the upload loop of [streamlit.py]) *)

Module Upload.
Import Agent.

(** What follows the first [sep] of [s], if there is one. *)
Fixpoint after_first (sep : N) (s : str) : option str :=
  match s with
  | [] => None
  | c :: rest => if N.eqb c sep then Some rest else after_first sep rest
  end.

(** [name.rsplit('.', 1)[0]] *)
Definition upload_title (name : str) : str :=
  match after_first 46 (rev name) with
  | Some r => rev r
  | None => name
  end.

Section Loop.
Variables vec index json timestamp : Type.
Variable encode : str -> vec.
Variable index_build : list vec -> index.

(** One turn of the loop: [text_content] is what the extraction gave
    ([None] when it failed), [metadata_json] the serialised metadata. The
    boolean says whether the file counts as a success. *)
Definition upload_file (st : agent index json timestamp) (name : str)
           (text_content : option str) (metadata_json : str)
  : agent index json timestamp * bool :=
  match text_content with
  | Some text =>
      if (truthy text && truthy (strip text))%bool
      then (add_document encode index_build st (upload_title name) text
                         (lit "Upload: " ++ name) metadata_json,
            true)
      else (st, false)
  | None => (st, false)
  end.

End Loop.

End Upload.

(* ================================================================== *)
(** * Facts about strings *)

Module PyStrFacts.

Lemma drop_space_split (s : str) :
  exists ws, s = ws ++ drop_space s /\ Forall (fun c => is_space c = true) ws.
Proof.
  induction s as [|c s [ws [E F]]]; simpl.
  - exists []; split; [reflexivity | constructor].
  - destruct (is_space c) eqn:Hc.
    + exists (c :: ws); split; [simpl; f_equal; exact E|].
      constructor; assumption.
    + exists []; split; [reflexivity | constructor].
Qed.

(** [strip] removes a white prefix and a white suffix, nothing else. *)
Lemma strip_split (s : str) :
  exists ws1 ws2,
    s = ws1 ++ strip s ++ ws2
    /\ Forall (fun c => is_space c = true) ws1
    /\ Forall (fun c => is_space c = true) ws2.
Proof.
  destruct (drop_space_split s) as [ws1 [E1 F1]].
  destruct (drop_space_split (rev (drop_space s))) as [ws2 [E2 F2]].
  exists ws1, (rev ws2); repeat split.
  - rewrite E1 at 1; f_equal.
    unfold strip.
    rewrite <- rev_app_distr, <- E2, rev_involutive; reflexivity.
  - exact F1.
  - apply Forall_rev; exact F2.
Qed.

Lemma space_not_lowercase (c : N) :
  is_space c = true -> in_range 97 122 c = false.
Proof.
  unfold is_space, in_range; intros H.
  repeat (apply orb_true_iff in H; destruct H as [H|H]);
    repeat (apply andb_true_iff in H; destruct H as [? H]);
    apply andb_false_iff;
    repeat match goal with
           | X : N.leb _ _ = true |- _ => apply N.leb_le in X
           | X : N.eqb _ _ = true |- _ => apply N.eqb_eq in X
           end;
    rewrite !N.leb_gt; lia.
Qed.

Lemma upper_app ext (a b : str) :
  upper ext (a ++ b) = upper ext a ++ upper ext b.
Proof. unfold upper; apply flat_map_app. Qed.

Lemma upper_space ext (ws : str) :
  Forall (fun c => is_space c = true) ws -> upper ext ws = ws.
Proof.
  induction 1 as [|c ws Hc _ IH]; [reflexivity|].
  unfold upper in *; simpl; rewrite IH.
  unfold upper_cp; rewrite (space_not_lowercase _ Hc), Hc, orb_true_r.
  reflexivity.
Qed.

Lemma starts_with_snoc (kw s : str) (c : N) :
  is_space c = true -> spaceless kw = true ->
  starts_with kw (s ++ [c]) = starts_with kw s.
Proof.
  intros Hc; revert s; induction kw as [|a kw IH]; intros s Hkw.
  - destruct s; reflexivity.
  - simpl in Hkw; apply andb_true_iff in Hkw; destruct Hkw as [Ha Hkw].
    destruct s as [|b s]; simpl.
    + destruct (N.eqb_spec a c) as [->|_]; [|reflexivity].
      rewrite Hc in Ha; discriminate.
    + rewrite IH by assumption; reflexivity.
Qed.

Lemma contains_cons_space (kw s : str) (c : N) :
  is_space c = true -> spaceless kw = true -> kw <> [] ->
  contains kw (c :: s) = contains kw s.
Proof.
  intros Hc Hkw Hne; destruct kw as [|a kw]; [congruence|].
  simpl in Hkw; apply andb_true_iff in Hkw; destruct Hkw as [Ha _].
  change (contains (a :: kw) (c :: s))
    with ((N.eqb a c && starts_with kw s) || contains (a :: kw) s)%bool.
  destruct (N.eqb_spec a c) as [->|_]; [|reflexivity].
  rewrite Hc in Ha; discriminate.
Qed.

Lemma contains_snoc_space (kw s : str) (c : N) :
  is_space c = true -> spaceless kw = true -> kw <> [] ->
  contains kw (s ++ [c]) = contains kw s.
Proof.
  intros Hc Hkw Hne; induction s as [|b s IH].
  - change ([] ++ [c]) with (c :: @nil N).
    apply contains_cons_space; assumption.
  - change (contains kw ((b :: s) ++ [c]))
      with (starts_with kw ((b :: s) ++ [c]) || contains kw (s ++ [c]))%bool.
    rewrite starts_with_snoc, IH by assumption; reflexivity.
Qed.

(** White space around a text hides no spaceless keyword. *)
Lemma contains_padded (kw ws1 t ws2 : str) :
  spaceless kw = true -> kw <> [] ->
  Forall (fun c => is_space c = true) ws1 ->
  Forall (fun c => is_space c = true) ws2 ->
  contains kw (ws1 ++ t ++ ws2) = contains kw t.
Proof.
  intros Hkw Hne F1 F2.
  induction F1 as [|c ws1 Hc _ IH].
  - simpl; clear - Hkw Hne F2.
    induction ws2 as [|c ws2 IH] using rev_ind.
    + rewrite app_nil_r; reflexivity.
    + apply Forall_app in F2; destruct F2 as [F2 Fc].
      inversion Fc; subst.
      rewrite app_assoc, contains_snoc_space by assumption.
      apply IH; assumption.
  - change ((c :: ws1) ++ t ++ ws2) with (c :: (ws1 ++ t ++ ws2)).
    rewrite contains_cons_space by assumption; exact IH.
Qed.

Lemma contains_upper_strip ext (kw s : str) :
  spaceless kw = true -> kw <> [] ->
  contains kw (upper ext (strip s)) = contains kw (upper ext s).
Proof.
  intros Hkw Hne.
  destruct (strip_split s) as [ws1 [ws2 [E [F1 F2]]]].
  rewrite E at 2.
  rewrite !upper_app, (upper_space ext F1), (upper_space ext F2).
  symmetry; apply contains_padded; assumption.
Qed.

Lemma starts_with_prefix (p s : str) :
  starts_with p s = true <-> exists b, s = p ++ b.
Proof.
  revert s; induction p as [|a p IH]; intros s.
  - split; [exists s; reflexivity | destruct s; reflexivity].
  - destruct s as [|c s]; simpl.
    + split; [discriminate | intros [b H]; discriminate].
    + rewrite andb_true_iff, N.eqb_eq, IH; split.
      * intros [-> [b ->]]; exists b; reflexivity.
      * intros [b H]; injection H as -> ->; split; [reflexivity|].
        exists b; reflexivity.
Qed.

(** [contains] is substring containment. *)
Lemma contains_infix (p s : str) :
  contains p s = true <-> exists a b, s = a ++ p ++ b.
Proof.
  induction s as [|c s IH].
  - simpl; rewrite orb_false_r, starts_with_prefix; split.
    + intros [b H]; exists [], b; exact H.
    + intros [a [b H]]; destruct a; [exists b; exact H | discriminate].
  - change (contains p (c :: s))
      with (starts_with p (c :: s) || contains p s)%bool.
    rewrite orb_true_iff, starts_with_prefix, IH; split.
    + intros [[b H]|[a [b H]]].
      * exists [], b; exact H.
      * exists (c :: a), b; rewrite H; reflexivity.
    + intros [[|c' a] [b H]].
      * left; exists b; exact H.
      * right; injection H as -> ->; exists a, b; reflexivity.
Qed.

Lemma upper_capitals ext (kw : str) :
  forallb (in_range 65 90) kw = true -> upper ext kw = kw.
Proof.
  induction kw as [|c kw IH]; [reflexivity|]; simpl.
  rewrite andb_true_iff; intros [Hc Hkw].
  unfold upper in *; simpl; rewrite (IH Hkw).
  unfold upper_cp, in_range in *.
  apply andb_true_iff in Hc; destruct Hc as [H1 H2].
  apply N.leb_le in H1; apply N.leb_le in H2.
  replace (N.leb 97 c) with false by (symmetry; apply N.leb_gt; lia).
  replace (N.ltb c 128) with true by (symmetry; apply N.ltb_lt; lia).
  reflexivity.
Qed.

(** A keyword in capitals that the text holds is still there after
    upper-casing. *)
Lemma contains_upper ext (kw s : str) :
  forallb (in_range 65 90) kw = true ->
  contains kw s = true -> contains kw (upper ext s) = true.
Proof.
  intros Hkw H; apply contains_infix in H; destruct H as [a [b ->]].
  apply contains_infix.
  exists (upper ext a), (upper ext b).
  rewrite !upper_app, (upper_capitals ext kw Hkw); reflexivity.
Qed.

Lemma last_n_slice (A : Type) (k : nat) (l : list A) :
  (0 < k)%nat -> slice_from (- Z.of_nat k) l = last_n k l.
Proof.
  intros Hk; unfold slice_from, last_n, len.
  destruct (Z.ltb_spec (- Z.of_nat k) 0); [|lia].
  f_equal; lia.
Qed.

Lemma last_n_length (A : Type) (k : nat) (l : list A) :
  List.length (last_n k l) = Nat.min k (List.length l).
Proof. unfold last_n; rewrite length_skipn; lia. Qed.

End PyStrFacts.

(* ================================================================== *)
(** * The intent parser *)

Module IntentFacts.
Import Intent PyStrFacts.

(** The parser reads the upper-cased completion; its [strip] changes
    nothing, the keywords holding no white space. *)
Lemma detect_user_intent_cascade (upper_ext : N -> str) (completion : str) :
  detect_user_intent upper_ext completion
  = (if contains (lit "CALENDAR") (upper upper_ext completion) then CALENDAR
     else if contains (lit "EMAIL") (upper upper_ext completion) then EMAIL
     else if contains (lit "ANALYSIS") (upper upper_ext completion)
          then ANALYSIS
          else KNOWLEDGE).
Proof.
  unfold detect_user_intent.
  rewrite !contains_upper_strip by (reflexivity || discriminate).
  reflexivity.
Qed.

(** A completion that holds "CALENDAR" as written is CALENDAR, whatever
    else it holds. *)
Lemma calendar_wins (upper_ext : N -> str) (completion : str) :
  contains (lit "CALENDAR") completion = true ->
  detect_user_intent upper_ext completion = CALENDAR.
Proof.
  intros H.
  rewrite detect_user_intent_cascade.
  rewrite (contains_upper upper_ext (lit "CALENDAR") completion eq_refl H).
  reflexivity.
Qed.

(** C1. The parser answers CALENDAR when the upper-cased completion
    contains "CALENDAR", otherwise EMAIL when it contains "EMAIL",
    otherwise ANALYSIS when it contains "ANALYSIS", otherwise KNOWLEDGE;
    so a completion with both "EMAIL" and "CALENDAR" is CALENDAR and one
    with none of the three keywords is KNOWLEDGE. The [strip] of the
    source changes nothing, the keywords holding no white space. *)
Theorem detect_user_intent_priority (upper_ext : N -> str) (completion : str) :
  let text := upper upper_ext completion in
  detect_user_intent upper_ext completion
  = (if contains (lit "CALENDAR") text then CALENDAR
     else if contains (lit "EMAIL") text then EMAIL
     else if contains (lit "ANALYSIS") text then ANALYSIS
     else KNOWLEDGE)
  /\ (contains (lit "EMAIL") text = true ->
      contains (lit "CALENDAR") text = true ->
      detect_user_intent upper_ext completion = CALENDAR)
  /\ (contains (lit "CALENDAR") text = false ->
      contains (lit "EMAIL") text = false ->
      contains (lit "ANALYSIS") text = false ->
      detect_user_intent upper_ext completion = KNOWLEDGE).
Proof.
  intros text.
  pose proof (detect_user_intent_cascade upper_ext completion) as E.
  fold text in E.
  split; [exact E|]; split.
  - intros _ Hc; rewrite E, Hc; reflexivity.
  - intros Hc He Ha; rewrite E, Hc, He, Ha; reflexivity.
Qed.

Lemma detect_user_intent_priority_witness :
  let ext := fun _ : N => @nil N in
  let both := lit " Email, not calendar. " in
  let none := lit "I am not sure" in
  (contains (lit "EMAIL") (upper ext both) = true
   /\ contains (lit "CALENDAR") (upper ext both) = true
   /\ detect_user_intent ext both = CALENDAR)
  /\ (contains (lit "CALENDAR") (upper ext none) = false
      /\ contains (lit "EMAIL") (upper ext none) = false
      /\ contains (lit "ANALYSIS") (upper ext none) = false
      /\ detect_user_intent ext none = KNOWLEDGE).
Proof.
  intros ext both none.
  split.
  - split; [reflexivity|]; split; [reflexivity|].
    apply (proj1 (proj2 (detect_user_intent_priority ext both))); reflexivity.
  - split; [reflexivity|]; split; [reflexivity|]; split; [reflexivity|].
    apply (proj2 (proj2 (detect_user_intent_priority ext none))); reflexivity.
Defined.

End IntentFacts.

(* ================================================================== *)
(** * The calendar time window *)

Module TimeWindowFacts.
Import TimeWindow.

Lemma contains_starts (p a s : str) :
  starts_with (a ++ p) s = true -> contains p s = true.
Proof.
  revert s; induction a as [|c a IH]; intros s H.
  - destruct s; simpl in *; rewrite H; reflexivity.
  - destruct s as [|b s]; [discriminate|].
    simpl in H; apply andb_true_iff in H; destruct H as [_ H].
    change (contains p (b :: s))
      with (starts_with p (b :: s) || contains p s)%bool.
    rewrite (IH _ H); apply orb_true_r.
Qed.

(** A text that contains [a ++ p] contains [p]. *)
Lemma contains_suffix (p a s : str) :
  contains (a ++ p) s = true -> contains p s = true.
Proof.
  induction s as [|b s IH]; intros H.
  - simpl in H; rewrite orb_false_r in H.
    apply (contains_starts p a); exact H.
  - change (contains (a ++ p) (b :: s))
      with (starts_with (a ++ p) (b :: s) || contains (a ++ p) s)%bool in H.
    apply orb_true_iff in H; destruct H as [H|H].
    + apply (contains_starts p a); exact H.
    + change (contains p (b :: s))
        with (starts_with p (b :: s) || contains p s)%bool.
      rewrite (IH H); apply orb_true_r.
Qed.

(** The "next week" branch is never taken: a message with "next week"
    has "week", which the branch before answers with 7. *)
Lemma next_week_unreachable lower_ext (message : str) :
  extract_time_context lower_ext message <> 14%Z.
Proof.
  unfold extract_time_context.
  set (m := lower lower_ext message).
  destruct (any_in _ m); [discriminate|].
  destruct (any_in _ m); [discriminate|].
  destruct (any_in [lit "this week"; lit "week"] m) eqn:Hw; [discriminate|].
  destruct (any_in [lit "next week"] m) eqn:Hn.
  - exfalso.
    unfold any_in in Hw, Hn; simpl existsb in Hw, Hn.
    rewrite orb_false_r in Hn, Hw.
    apply orb_false_iff in Hw; destruct Hw as [_ Hw].
    apply (contains_suffix (lit "week") (lit "next ")) in Hn.
    rewrite Hn in Hw; discriminate.
  - destruct (any_in [lit "month"; lit "this month"] m); discriminate.
Qed.

(** C4. The window is 2 days for "Can we meet tomorrow?" and 7 days for
    "hello"; for "anything next week?" the code answers 7 days and not
    14, the message holding "week". *)
Theorem extract_time_context_examples lower_ext :
  extract_time_context lower_ext (lit "Can we meet tomorrow?") = 2%Z
  /\ extract_time_context lower_ext (lit "anything next week?") = 7%Z
  /\ extract_time_context lower_ext (lit "hello") = 7%Z.
Proof. split; [|split]; vm_compute; reflexivity. Qed.

End TimeWindowFacts.

(* ================================================================== *)
(** * The chunker *)

Module ChunkerFacts.
Import Chunker PyStrFacts.

Lemma neg_div_5 (overlap : Z) : ((- overlap) / 5 = - ((overlap + 4) / 5))%Z.
Proof. Z.to_euclidean_division_equations; lia. Qed.

(** What the slice keeps: [(-overlap)//5] is minus the quotient rounded
    up, so a positive [overlap] carries over that many words. *)
Lemma overlap_words_rounds_up (overlap : Z) (words : list str) :
  (0 < overlap)%Z ->
  overlap_words overlap words
  = last_n (Z.to_nat ((overlap + 4) / 5)) words.
Proof.
  intros Hpos; unfold overlap_words.
  assert (Hc : (0 < (overlap + 4) / 5)%Z)
    by (Z.to_euclidean_division_equations; lia).
  assert (Hf : (overlap / 5 <= (overlap + 4) / 5)%Z)
    by (Z.to_euclidean_division_equations; lia).
  destruct (Z.gtb_spec (len words) (overlap / 5)) as [Hgt|Hle].
  - rewrite neg_div_5, <- (Z2Nat.id ((overlap + 4) / 5)) at 1 by lia.
    apply last_n_slice; lia.
  - unfold last_n, len in *.
    replace (List.length words - Z.to_nat ((overlap + 4) / 5))%nat with 0%nat
      by lia.
    reflexivity.
Qed.

(** For a positive multiple of five the two quotients agree. *)
Lemma overlap_words_multiple_of_5 (overlap : Z) (words : list str) :
  (0 < overlap)%Z -> (overlap mod 5 = 0)%Z ->
  overlap_words overlap words = last_n (Z.to_nat (overlap / 5)) words.
Proof.
  intros Hpos Hmod; rewrite overlap_words_rounds_up by assumption.
  do 2 f_equal; Z.to_euclidean_division_equations; lia.
Qed.

(** With no overlap asked for, the whole closed buffer is carried over. *)
Lemma overlap_words_zero (words : list str) : overlap_words 0 words = words.
Proof.
  unfold overlap_words; change (0 / 5)%Z with 0%Z; change (- 0 / 5)%Z with 0%Z.
  destruct (len words >? 0)%Z; [|reflexivity].
  unfold slice_from; simpl.
  replace (Z.min 0 (len words)) with 0%Z by (unfold len; lia).
  reflexivity.
Qed.

(** C5. The tail carried into the new buffer is not always the last
    [overlap/5] words. With [overlap = 7] the closed buffer
    "one two three." hands over two words where [7/5] is one, and with
    [overlap = 3] it hands over one word where [3/5] is none. *)
Theorem overlap_tail_examples :
  let text := lit "one two three. four five six." in
  let closed := split (lit "one two three.") in
  chunk_text text 10 7
  = [lit "one two three."; lit "two three. four five six."]
  /\ overlap_words 7 closed = [lit "two"; lit "three."]
  /\ last_n (Z.to_nat (7 / 5)) closed = [lit "three."]
  /\ chunk_text text 10 3
     = [lit "one two three."; lit "three. four five six."]
  /\ overlap_words 3 closed = [lit "three."]
  /\ last_n (Z.to_nat (3 / 5)) closed = [].
Proof. repeat split. Qed.

(** C6. Two sentences whose lengths add up to [chunk_size] are packed
    into one chunk, which the joining space makes one code point longer
    than [chunk_size]; no overlap prefix is involved. *)
Theorem chunk_exceeds_chunk_size :
  let text := lit "aaaa. bbbb." in
  split_sentences text = [lit "aaaa."; lit "bbbb."]
  /\ chunk_text text 10 150 = [lit "aaaa. bbbb."]
  /\ len (lit "aaaa. bbbb.") = 11%Z.
Proof. repeat split. Qed.

Lemma drop_space_length (s : str) :
  (List.length (drop_space s) <= List.length s)%nat.
Proof.
  induction s as [|c s IH]; simpl; [lia|].
  destruct (is_space c); simpl; lia.
Qed.

Lemma strip_length (s : str) : (len (strip s) <= len s)%Z.
Proof.
  unfold strip, len; rewrite length_rev.
  pose proof (drop_space_length (rev (drop_space s))) as H1.
  pose proof (drop_space_length s) as H2.
  rewrite length_rev in H1; lia.
Qed.

End ChunkerFacts.

(* ================================================================== *)
(** * The score test *)

Module Float32Facts.
Import Float32.

Local Open Scope Z_scope.

(** ** Exact values and the comparison of floats *)

Lemma digits2_pos_bounds (m : positive) :
  2 ^ (Z.pos (digits2_pos m) - 1) <= Z.pos m < 2 ^ Z.pos (digits2_pos m).
Proof.
  induction m as [m IH | m IH |]; cbn [digits2_pos].
  - rewrite Pos2Z.inj_succ.
    replace (Z.succ (Z.pos (digits2_pos m)) - 1)
      with (Z.succ (Z.pos (digits2_pos m) - 1)) by lia.
    rewrite !Z.pow_succ_r by lia; lia.
  - rewrite Pos2Z.inj_succ.
    replace (Z.succ (Z.pos (digits2_pos m)) - 1)
      with (Z.succ (Z.pos (digits2_pos m) - 1)) by lia.
    rewrite !Z.pow_succ_r by lia; lia.
  - cbn; lia.
Qed.

(** A double has at most 53 significant bits, and exactly 53 above the
    smallest exponent. *)
Lemma bounded_canonical (m : positive) (e : Z) :
  bounded prec emax m e = true ->
  -1074 <= e /\ Z.pos m < 2 ^ 53 /\ (-1074 < e -> 2 ^ 52 <= Z.pos m).
Proof.
  unfold bounded, canonical_mantissa, fexp, SpecFloat.emin, prec, emax.
  intros H; apply andb_prop in H; destruct H as [H _].
  apply Z.eqb_eq in H.
  pose proof (digits2_pos_bounds m) as [Hl Hu].
  set (d := Z.pos (digits2_pos m)) in *.
  assert (Hd : 0 < d) by (unfold d; lia).
  split; [lia|]; split.
  - assert (d <= 53) by lia.
    pose proof (Z.pow_le_mono_r 2 d 53 ltac:(lia) ltac:(lia)); lia.
  - intros He; assert (d = 53) by lia.
    replace 52 with (d - 1) by lia; exact Hl.
Qed.

Lemma finite_order (m1 m2 : positive) (e1 e2 : Z) :
  bounded prec emax m1 e1 = true -> bounded prec emax m2 e2 = true ->
  e1 < e2 ->
  Z.pos m1 * 2 ^ (e1 + 1074) < Z.pos m2 * 2 ^ (e2 + 1074).
Proof.
  intros H1 H2 He.
  destruct (bounded_canonical _ _ H1) as [L1 [U1 _]].
  destruct (bounded_canonical _ _ H2) as [L2 [_ N2]].
  specialize (N2 ltac:(lia)).
  assert (P1 : 0 < 2 ^ (e1 + 1074)) by (apply Z.pow_pos_nonneg; lia).
  assert (P : 2 ^ (e1 + 1 + 1074) <= 2 ^ (e2 + 1074))
    by (apply Z.pow_le_mono_r; lia).
  replace (e1 + 1 + 1074) with (Z.succ (e1 + 1074)) in P by lia.
  rewrite Z.pow_succ_r in P by lia.
  change (2 ^ 53) with (2 * 2 ^ 52) in U1.
  assert (0 < 2 ^ 52) by reflexivity.
  nia.
Qed.

(** The comparison of two doubles is the comparison of their values. *)
Lemma SFltb_value (x y : spec_float) :
  valid_binary x = true -> valid_binary y = true ->
  SFltb x y = fval_ltb (value x) (value y).
Proof.
  intros Hx Hy.
  destruct x as [sx | sx | | sx mx ex], y as [sy | sy | | sy my ey];
    try reflexivity;
    try (destruct sx; reflexivity); try (destruct sy; reflexivity);
    try (destruct sx, sy; reflexivity).
  - unfold SFltb; cbn [SFcompare value fval_ltb].
    assert (0 < Z.pos my * 2 ^ (ey + 1074)).
    { cbn in Hy; destruct (bounded_canonical _ _ Hy) as [L _].
      assert (0 < 2 ^ (ey + 1074)) by (apply Z.pow_pos_nonneg; lia); nia. }
    destruct sy; symmetry; [apply Z.ltb_ge | apply Z.ltb_lt]; lia.
  - unfold SFltb; cbn [SFcompare value fval_ltb].
    assert (0 < Z.pos mx * 2 ^ (ex + 1074)).
    { cbn in Hx; destruct (bounded_canonical _ _ Hx) as [L _].
      assert (0 < 2 ^ (ex + 1074)) by (apply Z.pow_pos_nonneg; lia); nia. }
    destruct sx; symmetry; [apply Z.ltb_lt | apply Z.ltb_ge]; lia.
  - cbn in Hx, Hy.
    unfold SFltb; cbn [SFcompare value fval_ltb].
    destruct (bounded_canonical _ _ Hx) as [Lx _].
    destruct (bounded_canonical _ _ Hy) as [Ly _].
    assert (Px : 0 < 2 ^ (ex + 1074)) by (apply Z.pow_pos_nonneg; lia).
    assert (Py : 0 < 2 ^ (ey + 1074)) by (apply Z.pow_pos_nonneg; lia).
    assert (C : match Z.compare ex ey with
                | Lt => Z.pos mx * 2 ^ (ex + 1074) < Z.pos my * 2 ^ (ey + 1074)
                | Gt => Z.pos my * 2 ^ (ey + 1074) < Z.pos mx * 2 ^ (ex + 1074)
                | Eq => ex = ey
                end).
    { destruct (Z.compare_spec ex ey) as [E | L | G];
        [exact E | apply finite_order; assumption
         | apply finite_order; assumption]. }
    change (Pos.compare_cont Eq mx my) with (Z.compare (Z.pos mx) (Z.pos my)).
    destruct sx, sy; symmetry.
    + destruct (Z.compare ex ey).
      * subst ey.
        destruct (Z.compare_spec (Z.pos mx) (Z.pos my)); cbn [CompOpp];
          [apply Z.ltb_ge | apply Z.ltb_ge | apply Z.ltb_lt]; nia.
      * apply Z.ltb_ge; lia.
      * apply Z.ltb_lt; lia.
    + apply Z.ltb_lt; nia.
    + apply Z.ltb_ge; nia.
    + destruct (Z.compare ex ey).
      * subst ey.
        destruct (Z.compare_spec (Z.pos mx) (Z.pos my));
          [apply Z.ltb_ge | apply Z.ltb_lt | apply Z.ltb_ge]; nia.
      * apply Z.ltb_lt; lia.
      * apply Z.ltb_ge; lia.
Qed.

(** [a < b] on floats is [a < b] on their exact values. *)
Lemma units_ltb (a b : float) :
  fval_ltb (units a) (units b) = PrimFloat.ltb a b.
Proof.
  rewrite ltb_spec; symmetry; apply SFltb_value; apply Prim2SF_valid.
Qed.

Lemma units_nan (x : float) : is_nan x = false -> units x <> FNan.
Proof.
  unfold units, Prim2SF; intros ->.
  destruct (is_zero x); [discriminate|].
  destruct (is_infinity x); [discriminate|].
  destruct (FloatOps.Z.frexp x) as [r e].
  destruct (shr_fexp _ _ _ _ _) as [shr e'].
  destruct (shr_m shr); discriminate.
Qed.

Lemma fval_eqb_eq (a b : fval) : fval_eqb a b = true -> a = b.
Proof.
  destruct a as [| x | x], b as [| y | y]; try discriminate; cbn; intros H.
  - reflexivity.
  - f_equal; apply Bool.eqb_prop; exact H.
  - f_equal; apply Z.eqb_eq; exact H.
Qed.

(** Of three values of which the middle one is a number: if the first is
    not below the second nor the second below the third, the first is
    not below the third. *)
Lemma fval_ltb_chain (a b c : fval) :
  b <> FNan -> fval_ltb a b = false -> fval_ltb b c = false ->
  fval_ltb a c = false.
Proof.
  destruct a as [| [|] | x], b as [| [|] | y], c as [| [|] | z];
    cbn; intros Hb H1 H2; try reflexivity; try discriminate;
    try congruence.
  apply Z.ltb_ge in H1, H2; apply Z.ltb_ge; lia.
Qed.

(** ** Rounding to the nearest integer *)

Lemma rne_cases n q : 0 < q ->
  (rne n q = n / q /\ (n mod q = 0 \/ 0 < n mod q))
  \/ (rne n q = n / q + 1 /\ 0 < n mod q).
Proof.
  intros Hq; unfold rne.
  pose proof (Z.mod_pos_bound n q Hq) as Hr.
  destruct (Z.ltb_spec (2 * (n mod q)) q); [left; split; [reflexivity | lia] |].
  destruct (Z.ltb_spec q (2 * (n mod q))); [right; split; [reflexivity | lia] |].
  destruct (Z.even (n / q)); [left | right]; split; try reflexivity; lia.
Qed.

Lemma rne_exact n q : 0 < q -> n mod q = 0 -> rne n q = n / q.
Proof.
  intros Hq H0; unfold rne; rewrite H0.
  destruct (Z.ltb_spec (2 * 0) q); [reflexivity | lia].
Qed.

(** Rounding does not go below a multiple of the spacing that the number
    is not below, nor above one that it is not above. *)
Lemma rne_ge_grid n q k : 0 < q -> k * q <= n -> k * q <= rne n q * q.
Proof.
  intros Hq H.
  assert (k <= n / q) by (apply Z.div_le_lower_bound; lia).
  destruct (rne_cases n Hq) as [[-> _] | [-> _]]; nia.
Qed.

Lemma rne_le_grid n q k : 0 < q -> n <= k * q -> rne n q * q <= k * q.
Proof.
  intros Hq H.
  pose proof (Z.div_mod n q ltac:(lia)) as E.
  pose proof (Z.mod_pos_bound n q Hq) as Hr.
  destruct (Z.eq_dec (n mod q) 0) as [H0 | H0].
  - rewrite (rne_exact _ Hq H0); nia.
  - assert (n / q < k) by nia.
    destruct (rne_cases n Hq) as [[-> _] | [-> _]]; nia.
Qed.

Lemma rne_mono a b q : 0 < q -> a <= b -> rne a q <= rne b q.
Proof.
  intros Hq H.
  pose proof (Z.div_le_mono a b q Hq H) as Hd.
  destruct (Z.eq_dec (a / q) (b / q)) as [E | E].
  - pose proof (Z.div_mod a q ltac:(lia)) as Ea.
    pose proof (Z.div_mod b q ltac:(lia)) as Eb.
    assert (a mod q <= b mod q) by nia.
    unfold rne; rewrite E.
    destruct (Z.ltb_spec (2 * (a mod q)) q), (Z.ltb_spec (2 * (b mod q)) q);
      try lia;
      destruct (Z.ltb_spec q (2 * (a mod q))), (Z.ltb_spec q (2 * (b mod q)));
      try lia; destruct (Z.even (b / q)); lia.
  - destruct (rne_cases a Hq) as [[-> _] | [-> _]],
             (rne_cases b Hq) as [[-> _] | [-> _]]; lia.
Qed.

(** ** Rounding to [float32] keeps the order *)

Lemma quantum_pos n : 0 < quantum n.
Proof. unfold quantum; apply Z.pow_pos_nonneg; lia. Qed.

Lemma round_mag_nonneg n : 0 <= n -> 0 <= round_mag n.
Proof.
  intros H; unfold round_mag.
  pose proof (quantum_pos n) as Hq.
  pose proof (@rne_ge_grid n (quantum n) 0 Hq ltac:(lia)); lia.
Qed.

(** Two magnitudes in one binade are rounded with one spacing; between
    two binades lies a power of two, which both spacings divide. *)
Lemma round_mag_mono a b : 0 <= a -> a <= b -> round_mag a <= round_mag b.
Proof.
  intros Ha Hab.
  destruct (Z.eq_dec a 0) as [-> | Hn].
  { change (round_mag 0) with 0; apply round_mag_nonneg; lia. }
  pose proof (Z.log2_le_mono a b Hab) as Hl.
  unfold round_mag, quantum.
  set (ea := Z.max 925 (Z.log2 a - 23)).
  set (eb := Z.max 925 (Z.log2 b - 23)).
  assert (Hea : 925 <= ea) by (unfold ea; lia).
  assert (Heb : ea <= eb) by (unfold ea, eb; lia).
  assert (Hqa : 0 < 2 ^ ea) by (apply Z.pow_pos_nonneg; lia).
  assert (Hqb : 0 < 2 ^ eb) by (apply Z.pow_pos_nonneg; lia).
  destruct (Z.eq_dec ea eb) as [E | E].
  - rewrite <- E; pose proof (rne_mono Hqa Hab); nia.
  - assert (Hb : eb = Z.log2 b - 23) by (unfold ea, eb in *; lia).
    assert (Hlt : Z.log2 a + 1 <= Z.log2 b) by (unfold ea, eb in *; lia).
    pose proof (Z.log2_nonneg a) as Hla.
    destruct (Z.log2_spec a ltac:(lia)) as [_ Hau].
    destruct (Z.log2_spec b ltac:(lia)) as [Hbl _].
    assert (Hg : 2 ^ Z.succ (Z.log2 a) <= 2 ^ Z.log2 b)
      by (apply Z.pow_le_mono_r; lia).
    assert (Ga : 2 ^ Z.log2 b = 2 ^ (Z.log2 b - ea) * 2 ^ ea)
      by (rewrite <- Z.pow_add_r by lia; f_equal; lia).
    assert (Gb : 2 ^ Z.log2 b = 2 ^ (Z.log2 b - eb) * 2 ^ eb)
      by (rewrite <- Z.pow_add_r by lia; f_equal; lia).
    pose proof (@rne_le_grid a (2 ^ ea) (2 ^ (Z.log2 b - ea)) Hqa ltac:(lia)).
    pose proof (@rne_ge_grid b (2 ^ eb) (2 ^ (Z.log2 b - eb)) Hqb ltac:(lia)).
    lia.
Qed.

Lemma round32_mono x y :
  y <= x -> fval_ltb (round32 (FFin x)) (round32 (FFin y)) = false.
Proof.
  intros H; unfold round32.
  pose proof (round_mag_nonneg (Z.abs_nonneg x)) as Hx.
  pose proof (round_mag_nonneg (Z.abs_nonneg y)) as Hy.
  assert (M : (x < 0 -> round_mag (Z.abs x) <= round_mag (Z.abs y))
              /\ (0 <= y -> round_mag (Z.abs y) <= round_mag (Z.abs x))).
  { split; intros; apply round_mag_mono; lia. }
  destruct M as [Mn Mp].
  generalize dependent (round_mag (Z.abs x)).
  generalize dependent (round_mag (Z.abs y)).
  generalize (2 ^ 1202); intros T my Hy mx Hx Mn Mp.
  destruct (Z.ltb_spec x 0) as [Nx | Nx], (Z.ltb_spec y 0) as [Ny | Ny];
    try lia;
    destruct (Z.leb_spec T mx), (Z.leb_spec T my);
    cbn [fval_ltb]; try reflexivity; try lia;
    apply Z.ltb_ge; nia.
Qed.

(** A [float32] value above the rounded threshold is above the threshold
    itself: were it not, rounding the two would keep them in that
    order, and rounding leaves a [float32] as it is. *)
Lemma rounded_test_sound (m s : fval) :
  round32 s = s -> fval_ltb (round32 m) s = true -> fval_ltb m s = true.
Proof.
  intros Hs H.
  destruct m as [| bm | x]; [exact H | exact H |].
  destruct s as [| [|] | y].
  - destruct (round32 (FFin x)) as [| [|] |]; discriminate.
  - destruct (round32 (FFin x)) as [| [|] |]; discriminate.
  - reflexivity.
  - cbn [fval_ltb]; apply Z.ltb_lt.
    destruct (Z.lt_ge_cases x y) as [L | G]; [exact L | exfalso].
    pose proof (round32_mono G) as M.
    rewrite Hs in M; congruence.
Qed.

(** The score test of the loop lets through only scores above
    [min_score]. *)
Lemma score_above_sound (min_score score : float) :
  is_float32 score = true ->
  score_above min_score score = true ->
  PrimFloat.ltb min_score score = true.
Proof.
  unfold is_float32, score_above; intros H32 H.
  rewrite <- units_ltb.
  apply rounded_test_sound; [apply fval_eqb_eq; exact H32 | exact H].
Qed.

(** The test is not the comparison itself. The [float32] nearest to 0.2
    is above the double 0.2, which rounds to it, so it does not pass
    against a [min_score] of 0.2; the next [float32] does. *)
Example score_test_rounds_min_score :
  PrimFloat.ltb 0x1.999999999999ap-3 0x1.99999ap-3 = true
  /\ score_above 0x1.999999999999ap-3 0x1.99999ap-3 = false
  /\ score_above 0x1.999999999999ap-3 0x1.99999cp-3 = true.
Proof. repeat split; vm_compute; reflexivity. Qed.

End Float32Facts.

(* ================================================================== *)
(** * The knowledge-base search *)

Module AgentFacts.
Import Agent.

Lemma filter_ord_pairs (A : Type) (R : A -> A -> Prop) (f : A -> bool)
      (l : list A) :
  ForallOrdPairs R l -> ForallOrdPairs R (filter f l).
Proof.
  induction 1 as [|a l Ha _ IH]; simpl; [constructor|].
  destruct (f a); [|exact IH].
  constructor; [|exact IH].
  apply Forall_forall; intros x Hx.
  apply filter_In in Hx; destruct Hx as [Hx _].
  rewrite Forall_forall in Ha; apply Ha; exact Hx.
Qed.

Lemma map_ord_pairs (A B : Type) (T : B -> A -> Prop)
      (R : A -> A -> Prop) (R' : B -> B -> Prop) (l : list A) (l' : list B) :
  (forall b1 a1 b2 a2, T b1 a1 -> T b2 a2 -> R a1 a2 -> R' b1 b2) ->
  Forall2 T l' l -> ForallOrdPairs R l -> ForallOrdPairs R' l'.
Proof.
  intros Hrel HT; induction HT as [|b a l' l Hba HT IH]; intros HR.
  - constructor.
  - inversion HR as [|? ? Ha Hl]; subst.
    constructor; [|apply IH; exact Hl].
    clear IH Hl HR.
    induction HT as [|b' a' l' l Hba' _ IH]; [constructor|].
    inversion Ha; subst.
    constructor; [eapply Hrel; eassumption | apply IH; assumption].
Qed.

Lemma Forall2_left_in (A B : Type) (T : B -> A -> Prop)
      (l' : list B) (l : list A) (b : B) :
  Forall2 T l' l -> In b l' -> exists a, In a l /\ T b a.
Proof.
  induction 1 as [|b' a' l' l Hba _ IH]; intros Hin; [contradiction|].
  destruct Hin as [->|Hin].
  - exists a'; split; [left; reflexivity | exact Hba].
  - destruct (IH Hin) as [a [Ha HT]]; exists a; split; [right|]; assumption.
Qed.

Lemma Forall2_right_in (A B : Type) (T : B -> A -> Prop)
      (l' : list B) (l : list A) (a : A) :
  Forall2 T l' l -> In a l -> exists b, In b l' /\ T b a.
Proof.
  induction 1 as [|b' a' l' l Hba _ IH]; intros Hin; [contradiction|].
  destruct Hin as [->|Hin].
  - exists b'; split; [left; reflexivity | exact Hba].
  - destruct (IH Hin) as [b [Hb HT]]; exists b; split; [right|]; assumption.
Qed.

Lemma last_n_10 (A : Type) (l : list A) : slice_from (-10) l = last_n 10 l.
Proof. apply (PyStrFacts.last_n_slice (k := 10)); lia. Qed.

Section Facts.
Variables vec index json timestamp : Type.
Variable encode : str -> vec.
Variable index_build : list vec -> index.
Variable index_search : index -> vec -> Z -> option (list (float * Z)).
Variable json_loads : str -> option json.
Variable fmt3 : float -> str.

Implicit Types (st : agent index json timestamp) (q : str) (top_k : Z)
         (min_score : float) (now : timestamp) (rs : list (result json)).

(** ** The loop *)

Lemma collect_skip st min_score score idx rest :
  ((idx <? len (document_chunks st))%Z
   && Float32.score_above min_score score)%bool
  = false ->
  collect json_loads st min_score ((score, idx) :: rest)
  = collect json_loads st min_score rest.
Proof. intros H; simpl; rewrite H; reflexivity. Qed.

(** A position at or past the end of the chunk list adds nothing. *)
Lemma collect_skips_past_end st min_score score idx rest :
  (len (document_chunks st) <= idx)%Z ->
  collect json_loads st min_score ((score, idx) :: rest)
  = collect json_loads st min_score rest.
Proof.
  intros H; apply collect_skip.
  destruct (Z.ltb_spec idx (len (document_chunks st))); [lia | reflexivity].
Qed.

(** A position before [-len] whose score passes the test of the loop is
    not skipped: the subscript raises. *)
Lemma collect_far_negative_raises st min_score score idx rest :
  (idx < - len (document_chunks st))%Z ->
  Float32.score_above min_score score = true ->
  collect json_loads st min_score ((score, idx) :: rest) = inl IndexError.
Proof.
  intros Hidx Hs; simpl; rewrite Hs.
  assert (Hn : (0 <= len (document_chunks st))%Z) by (unfold len; lia).
  destruct (Z.ltb_spec idx (len (document_chunks st))); [|lia]; simpl.
  unfold py_get.
  destruct (Z.ltb_spec idx 0); [|lia].
  destruct (Z.leb_spec 0 (idx + len (document_chunks st))); [lia|].
  reflexivity.
Qed.

(** The unused slots add nothing while their score does not pass the
    test. *)
Lemma collect_padding st min_score (m : nat) :
  Float32.score_above min_score flt_lowest = false ->
  collect json_loads st min_score (repeat padding m) = inr [].
Proof.
  intros H; induction m as [|m IH]; [reflexivity|].
  change (repeat padding (S m)) with ((flt_lowest, (-1)%Z) :: repeat padding m).
  rewrite collect_skip; [exact IH|].
  rewrite H; apply andb_false_r.
Qed.

(** Every result carries the score of a hit that passed the test. *)
Lemma collect_passed st min_score hits rs :
  collect json_loads st min_score hits = inr rs ->
  Forall (fun r => exists h,
              In h hits /\ relevance_score r = fst h
              /\ Float32.score_above min_score (fst h) = true) rs.
Proof.
  revert rs; induction hits as [|[score idx] rest IH]; intros rs H.
  - injection H as <-; constructor.
  - assert (Hrest : forall rs',
               collect json_loads st min_score rest = inr rs' ->
               Forall (fun r => exists h,
                           In h ((score, idx) :: rest)
                           /\ relevance_score r = fst h
                           /\ Float32.score_above min_score (fst h) = true)
                      rs').
    { intros rs' H'; eapply Forall_impl; [|apply IH; exact H'].
      intros r [h [Hin Hh]]; exists h; split; [right; exact Hin | exact Hh]. }
    simpl in H.
    destruct ((idx <? len (document_chunks st))%Z) eqn:Hidx; simpl in H;
      [|apply Hrest; exact H].
    destruct (Float32.score_above min_score score) eqn:Hs;
      [|apply Hrest; exact H].
    destruct (py_get (document_chunks st) idx) as [e|chunk]; [discriminate|].
    simpl in H.
    destruct (fetchone (documents st) (fst chunk)) as [r|];
      [|apply Hrest; exact H].
    destruct (json_loads (metadata_text r)) as [m|]; [|discriminate].
    simpl in H.
    destruct (collect json_loads st min_score rest) as [e|more];
      [discriminate|].
    injection H as <-.
    constructor; [|apply Hrest; reflexivity].
    exists (score, idx); split; [left; reflexivity|].
    split; [reflexivity | exact Hs].
Qed.

Lemma result_at_score st h r :
  result_at json_loads st h = Some r -> relevance_score r = fst h.
Proof.
  unfold result_at; intros H.
  destruct (nth_error _ _) as [chunk|]; [|discriminate].
  destruct (fetchone _ _) as [row|]; [|discriminate].
  destruct (json_loads _) as [m|]; [|discriminate].
  injection H as <-; reflexivity.
Qed.

(** On live positions whose chunks resolve, the loop returns the entry of
    every hit above the threshold, in the order of the hits. *)
Lemma collect_live st min_score live tail more :
  Forall (fun h => (0 <= snd h < len (document_chunks st))%Z) live ->
  chunks_resolve json_loads st ->
  collect json_loads st min_score tail = inr more ->
  exists rs,
    collect json_loads st min_score (live ++ tail) = inr (rs ++ more)
    /\ Forall2 (fun r h => result_at json_loads st h = Some r)
               rs (filter (above min_score) live).
Proof.
  intros Hlive Hres Htail.
  induction Hlive as [|[score idx] live Hidx _ [rs [IH1 IH2]]].
  - exists []; split; [exact Htail | constructor].
  - simpl in Hidx.
    change (((score, idx) :: live) ++ tail) with ((score, idx) :: (live ++ tail)).
    unfold above at 1; simpl filter; simpl fst.
    destruct (Float32.score_above min_score score) eqn:Hs.
    + destruct (nth_error (document_chunks st) (Z.to_nat idx)) as [chunk|] eqn:Hn.
      2:{ apply nth_error_None in Hn; unfold len in Hidx; lia. }
      pose proof (nth_error_In _ _ Hn) as Hin.
      unfold chunks_resolve in Hres; rewrite Forall_forall in Hres.
      destruct (Hres _ Hin) as [r [m [Hr Hm]]].
      exists ({| content := snd chunk; title := row_title r;
                 source := row_source r; metadata := m;
                 relevance_score := score |} :: rs).
      split.
      * simpl collect; rewrite Hs.
        destruct (Z.ltb_spec idx (len (document_chunks st))); [|lia]; simpl.
        unfold py_get.
        destruct (Z.ltb_spec idx 0); [lia|].
        destruct (Z.leb_spec 0 idx); [|lia].
        destruct (Z.ltb_spec idx (len (document_chunks st))); [|lia]; simpl.
        rewrite Hn; simpl; rewrite Hr, Hm; simpl; rewrite IH1; reflexivity.
      * constructor; [|exact IH2].
        unfold result_at; simpl; rewrite Hn, Hr, Hm; reflexivity.
    + exists rs; split; [|exact IH2].
      rewrite collect_skip; [exact IH1|].
      rewrite Hs; apply andb_false_r.
Qed.

(** ** Results of a query *)

(** C3. No result of the knowledge-base search has a relevance score at
    or below [min_score]: every score is strictly above it. The scores
    the index hands over are [float32] values; the loop compares each
    with [min_score] rounded to [float32], and a [float32] above the
    rounded threshold is above the threshold itself. *)
Theorem results_above_min_score st q top_k min_score hits rs :
  query_hits encode index_search st q top_k = Some (inr hits) ->
  Forall (fun h => Float32.is_float32 (fst h) = true) hits ->
  search_results encode index_search json_loads st q top_k min_score
  = Some (inr rs) ->
  Forall (fun r => PrimFloat.ltb min_score (relevance_score r) = true) rs.
Proof.
  unfold search_results; intros Hq H32 H; rewrite Hq in H.
  simpl in H; injection H as H.
  eapply Forall_impl; [|apply (collect_passed _ _ _ H)].
  intros r [h [Hin [-> Hs]]].
  rewrite Forall_forall in H32.
  apply Float32Facts.score_above_sound; [apply H32; exact Hin | exact Hs].
Qed.

(** ** What a query leaves behind *)

Lemma search_log_step st q top_k min_score now :
  recent_knowledge_searches
    (fst (search_knowledge_base encode index_search json_loads fmt3
                                st q top_k min_score now))
  = match search_results encode index_search json_loads st q top_k min_score
    with
    | Some (inr (r :: rs)) =>
        last_n 10 (recent_knowledge_searches st
                   ++ [{| query := q; results := r :: rs; timestamp_of := now |}])
    | _ => recent_knowledge_searches st
    end.
Proof.
  unfold search_knowledge_base.
  destruct (search_results _ _ _ _ _ _ _) as [[e|[|r rs]]|]; simpl;
    try reflexivity.
  apply last_n_10.
Qed.

Lemma reachable_log_bounded st :
  reachable encode index_build index_search json_loads fmt3 st ->
  (List.length (recent_knowledge_searches st) <= 10)%nat.
Proof.
  induction 1 as [rows | st t c s m _ IH | st q top_k min_score now _ IH].
  - simpl; lia.
  - exact IH.
  - rewrite search_log_step.
    destruct (search_results _ _ _ _ _ _ _) as [[e|[|r rs]]|]; try exact IH.
    rewrite PyStrFacts.last_n_length; lia.
Qed.

(** C9. After a query the recent-searches log holds at most 10 entries.
    The query's entry is appended exactly when the loop ended with at
    least one result; the log then keeps its last 10 entries in order,
    the oldest going first. Otherwise the log is as before. *)
Theorem recent_searches_bounded st q top_k min_score now :
  reachable encode index_build index_search json_loads fmt3 st ->
  let st' := fst (search_knowledge_base encode index_search json_loads fmt3
                                        st q top_k min_score now) in
  (List.length (recent_knowledge_searches st') <= 10)%nat
  /\ recent_knowledge_searches st'
     = match search_results encode index_search json_loads st q top_k min_score
       with
       | Some (inr (r :: rs)) =>
           last_n 10 (recent_knowledge_searches st
                      ++ [{| query := q; results := r :: rs;
                             timestamp_of := now |}])
       | _ => recent_knowledge_searches st
       end.
Proof.
  intros Hreach st'; split.
  - apply reachable_log_bounded, reach_search, Hreach.
  - apply search_log_step.
Qed.

(** C10. A query changes nothing but the recent-searches log: the
    documents table, the vector index and the retained chunk list are the
    same after the call as before it. *)
Theorem search_reads_only st q top_k min_score now :
  let st' := fst (search_knowledge_base encode index_search json_loads fmt3
                                        st q top_k min_score now) in
  documents st' = documents st
  /\ vector_index st' = vector_index st
  /\ document_chunks st' = document_chunks st
  /\ st' = set_recent st (recent_knowledge_searches st').
Proof.
  unfold search_knowledge_base.
  destruct (search_results _ _ _ _ _ _ _) as [[e|[|r rs]]|]; simpl;
    repeat split; destruct st; reflexivity.
Qed.

(** ** The two empty answers *)

(** C7. Searching with no index or no chunks raises nothing and changes
    nothing: it answers the empty-knowledge-base message, and it is the
    only case that does. A search that ends with no result answers the
    no-relevant-information message, and only it does; the two messages
    differ. An agent started on an empty store answers the first. *)
Theorem empty_index_signal st q top_k min_score now :
  let run := search_knowledge_base encode index_search json_loads fmt3 in
  (snd (run st q top_k min_score now) = Returned EMPTY_MSG
   <-> vector_index st = None \/ document_chunks st = [])
  /\ (vector_index st = None \/ document_chunks st = [] ->
      run st q top_k min_score now = (st, Returned EMPTY_MSG))
  /\ (snd (run st q top_k min_score now) = Returned NO_RELEVANT_MSG
      <-> search_results encode index_search json_loads st q top_k min_score
          = Some (inr []))
  /\ EMPTY_MSG <> NO_RELEVANT_MSG
  /\ run (init json timestamp encode index_build []) q top_k min_score now
     = (init json timestamp encode index_build [], Returned EMPTY_MSG).
Proof.
  intros run.
  assert (Hnone : search_results encode index_search json_loads
                                 st q top_k min_score = None
                  <-> vector_index st = None \/ document_chunks st = []).
  { unfold search_results, query_hits.
    destruct (vector_index st) as [ix|]; [|split; [left; reflexivity|reflexivity]].
    destruct (document_chunks st) as [|c cs].
    - split; [right; reflexivity | reflexivity].
    - change (len (c :: cs) =? 0)%Z with false.
      split; [discriminate | intros [H|H]; discriminate]. }
  assert (Hdiff : EMPTY_MSG <> NO_RELEVANT_MSG) by discriminate.
  unfold run, search_knowledge_base.
  split; [|split; [|split; [|split]]].
  - rewrite <- Hnone.
    destruct (search_results _ _ _ _ _ _ _) as [[e|[|r rs]]|]; simpl;
      split; try discriminate; try reflexivity.
  - intros H; apply Hnone in H; rewrite H; reflexivity.
  - destruct (search_results _ _ _ _ _ _ _) as [[e|[|r rs]]|]; simpl;
      split; try discriminate; try reflexivity.
  - exact Hdiff.
  - reflexivity.
Qed.

End Facts.

End AgentFacts.

(* ================================================================== *)
(** * The search on the small instance *)

Module ScenarioFacts.
Import Agent Scenario AgentFacts.

Lemma toy_reachable (st : toy_agent) (now n : nat) :
  reachable toy_encode toy_build toy_search toy_loads toy_fmt3 st ->
  reachable toy_encode toy_build toy_search toy_loads toy_fmt3
            (ask_from st now n).
Proof.
  revert st now; induction n as [|n IH]; intros st now H; simpl.
  - exact H.
  - apply IH, reach_search, H.
Qed.

(** Eleven queries with a result each: the entry of the first one
    (clock 0) is gone, the other ten are kept in order. *)
Example eleven_queries_keep_ten :
  List.map (@timestamp_of unit nat)
           (recent_knowledge_searches (ask_from one_document 0 11))
  = [1; 2; 3; 4; 5; 6; 7; 8; 9; 10]%nat.
Proof. vm_compute; reflexivity. Qed.

(** The same document stored twice is found twice with one score, so the
    scores returned are not strictly descending. *)
Lemma duplicate_documents_tie :
  exists rs,
    toy_results two_copies (lit "alpha") 2 default_min_score = Some (inr rs)
    /\ List.map (@relevance_score unit) rs = [1%float; 1%float]
    /\ strictly_descending (List.map (@relevance_score unit) rs) = false.
Proof.
  eexists; split; [vm_compute; reflexivity|].
  split; reflexivity.
Qed.

Lemma results_above_min_score_witness :
  exists rs,
    toy_results one_document (lit "alpha") 2 default_min_score = Some (inr rs)
    /\ rs <> []
    /\ Forall (fun r => PrimFloat.ltb default_min_score (relevance_score r)
                        = true) rs.
Proof.
  eexists; split; [vm_compute; reflexivity|].
  split; [discriminate|].
  apply (@results_above_min_score unit nat unit nat toy_encode toy_search
           toy_loads one_document (lit "alpha") 2 default_min_score
           [(1%float, 0%Z); padding]).
  - reflexivity.
  - repeat constructor.
  - vm_compute; reflexivity.
Defined.

(** A hit that scores the [float32] nearest to 0.2 is skipped under the
    default [min_score], whatever its position. *)
Example rounded_threshold_skips :
  collect toy_loads one_document default_min_score
          [(0x1.99999ap-3%float, 0%Z); (0x1.99999ap-3%float, (-7)%Z)]
  = inr [].
Proof. vm_compute; reflexivity. Qed.

(** C8. A filled slot is not always skipped. On an index of one entry
    asked for two hits, FAISS fills the second slot with position [-1];
    the test [idx < len(document_chunks)] lets [-1] through, and with
    [min_score] at minus infinity so does the score test:
    [document_chunks[-1]], the last chunk, becomes a second result. *)
Theorem padding_slot_returned :
  toy_search 1 tt 2 = Some [(1%float, 0%Z); padding]
  /\ py_get (document_chunks one_document) (-1) = inr (1%Z, lit "alpha.")
  /\ exists r1 r2,
      toy_results one_document (lit "alpha") 2 neg_infinity
      = Some (inr [r1; r2])
      /\ content r2 = lit "alpha."
      /\ relevance_score r2 = flt_lowest.
Proof.
  split; [reflexivity|]; split; [reflexivity|].
  do 2 eexists; split; [vm_compute; reflexivity|].
  split; reflexivity.
Qed.

Lemma recent_searches_bounded_witness :
  let st := ask_from one_document 0 11 in
  let st' := fst (toy_query st (lit "alpha") 5 default_min_score 11%nat) in
  (List.length (recent_knowledge_searches st') <= 10)%nat
  /\ List.map (@timestamp_of unit nat) (recent_knowledge_searches st')
     = [2; 3; 4; 5; 6; 7; 8; 9; 10; 11]%nat.
Proof.
  intros st st'; split.
  - apply (@recent_searches_bounded unit nat unit nat toy_encode toy_build
             toy_search toy_loads toy_fmt3 st (lit "alpha") 5
             default_min_score 11%nat).
    apply toy_reachable.
    unfold one_document, start.
    apply reach_add, reach_init.
  - vm_compute; reflexivity.
Defined.

Lemma empty_index_signal_witness :
  toy_query start (lit "alpha") 5 default_min_score 0%nat
  = (start, Returned EMPTY_MSG)
  /\ EMPTY_MSG <> NO_RELEVANT_MSG.
Proof.
  pose proof (@empty_index_signal unit nat unit nat toy_encode toy_build
                toy_search toy_loads toy_fmt3 start (lit "alpha") 5
                default_min_score 0%nat) as [_ [Hempty [_ [Hdiff _]]]].
  split; [|exact Hdiff].
  apply Hempty; left; reflexivity.
Defined.

End ScenarioFacts.

(* ================================================================== *)
(** * More about the chunker *)

Module ChunkerMore.
Import Chunker PyText PyStrFacts ChunkerFacts.

Lemma blank_app (a b : str) : blank (a ++ b) = (blank a && blank b)%bool.
Proof. apply forallb_app. Qed.

Lemma blank_rev (s : str) : blank (rev s) = blank s.
Proof.
  induction s as [|c s IH]; [reflexivity|]; simpl.
  rewrite blank_app, IH; simpl; rewrite andb_true_r; apply andb_comm.
Qed.

Lemma drop_space_head (s : str) :
  match drop_space s with
  | [] => blank s = true
  | c :: _ => is_space c = false /\ blank s = false
  end.
Proof.
  induction s as [|c s IH]; simpl; [reflexivity|].
  destruct (is_space c) eqn:Hc; simpl.
  - exact IH.
  - rewrite Hc; split; reflexivity.
Qed.

Lemma drop_space_fixed (s : str) :
  match s with c :: _ => is_space c = false | [] => True end ->
  drop_space s = s.
Proof. destruct s as [|c s]; simpl; [reflexivity|]; intros ->; reflexivity. Qed.

Lemma drop_space_blank (s : str) : blank (drop_space s) = blank s.
Proof.
  induction s as [|c s IH]; simpl; [reflexivity|].
  destruct (is_space c) eqn:Hc; simpl; [exact IH | rewrite Hc; reflexivity].
Qed.

Lemma strip_blank (s : str) : blank (strip s) = blank s.
Proof.
  unfold strip.
  rewrite blank_rev, drop_space_blank, blank_rev, drop_space_blank.
  reflexivity.
Qed.

(** [strip] leaves nothing exactly of a blank string. *)
Lemma strip_truthy (s : str) : truthy (strip s) = negb (blank s).
Proof.
  rewrite <- strip_blank; unfold strip.
  pose proof (drop_space_head (rev (drop_space s))) as H.
  destruct (drop_space (rev (drop_space s))) as [|c t] eqn:E.
  - reflexivity.
  - destruct H as [Hc _].
    rewrite blank_rev; simpl blank; rewrite Hc; simpl.
    destruct (rev t ++ [c]) eqn:E'; [|reflexivity].
    destruct (rev t); discriminate.
Qed.

Lemma strip_strip (s : str) : strip (strip s) = strip s.
Proof.
  unfold strip.
  set (t := drop_space s).
  set (u := drop_space (rev t)).
  assert (Hu : match u with c :: _ => is_space c = false | [] => True end).
  { pose proof (drop_space_head (rev t)) as H; fold u in H.
    destruct u; [exact I | exact (proj1 H)]. }
  assert (Ht : match t with c :: _ => is_space c = false | [] => True end).
  { pose proof (drop_space_head s) as H; fold t in H.
    destruct t; [exact I | exact (proj1 H)]. }
  assert (Hr : match rev u with c :: _ => is_space c = false | [] => True end).
  { destruct (drop_space_split (rev t)) as [ws [E F]]; fold u in E.
    assert (Et : t = rev u ++ rev ws)
      by (rewrite <- rev_app_distr, <- E, rev_involutive; reflexivity).
    destruct (rev u) as [|c r] eqn:Er; [exact I|].
    rewrite Et in Ht; exact Ht. }
  rewrite (drop_space_fixed _ Hr), rev_involutive, (drop_space_fixed _ Hu).
  reflexivity.
Qed.

Lemma terminal_not_space (c : N) : is_terminal c = true -> is_space c = false.
Proof.
  unfold is_terminal; intros H.
  repeat (apply orb_true_iff in H; destruct H as [H|H]);
    apply N.eqb_eq in H; subst c; reflexivity.
Qed.

Lemma ends_sentence_ink (cur : str) :
  ends_sentence cur = true -> blank (rev cur) = false.
Proof.
  destruct cur as [|c cur]; [discriminate|]; simpl; intros H.
  rewrite blank_app; simpl; rewrite (terminal_not_space _ H), andb_false_r.
  reflexivity.
Qed.

Lemma split_sentences_from_cons (skipping : bool) (cur s : str) :
  exists p rest, split_sentences_from skipping cur s = p :: rest.
Proof.
  revert skipping cur; induction s as [|c s IH]; intros skipping cur; simpl.
  - eexists; eexists; reflexivity.
  - destruct (is_space c); [destruct skipping; [apply IH|]|apply IH].
    destruct (ends_sentence cur); [eexists; eexists; reflexivity | apply IH].
Qed.

(** Every piece but the last ends on a terminal mark, so it is not blank. *)
Lemma split_sentences_from_inked (skipping : bool) (cur s : str) :
  Forall (fun p => blank p = false)
         (removelast (split_sentences_from skipping cur s)).
Proof.
  revert skipping cur; induction s as [|c s IH]; intros skipping cur.
  - constructor.
  - simpl split_sentences_from.
    destruct (is_space c); [destruct skipping; [apply IH|]|apply IH].
    destruct (ends_sentence cur) eqn:He; [|apply IH].
    destruct (split_sentences_from_cons true [] s) as [p [rest E]].
    specialize (IH true []); rewrite E in *.
    change (removelast (rev cur :: p :: rest))
      with (rev cur :: removelast (p :: rest)).
    constructor; [apply ends_sentence_ink; exact He | exact IH].
Qed.

(** Splitting into sentences loses white space and nothing else. *)
Lemma split_sentences_from_ink (skipping : bool) (cur s : str) :
  ink (List.concat (split_sentences_from skipping cur s)) = ink (rev cur ++ s).
Proof.
  unfold ink.
  revert skipping cur; induction s as [|c s IH]; intros skipping cur.
  - simpl; rewrite !app_nil_r; reflexivity.
  - simpl split_sentences_from.
    assert (Hkeep : filter (fun c => negb (is_space c))
                           (List.concat (split_sentences_from false (c :: cur) s))
                    = filter (fun c => negb (is_space c)) (rev cur ++ c :: s)).
    { rewrite IH; simpl; rewrite <- app_assoc; reflexivity. }
    destruct (is_space c) eqn:Hc; [|exact Hkeep].
    destruct skipping.
    + rewrite IH, !filter_app; simpl; rewrite Hc; reflexivity.
    + destruct (ends_sentence cur); [|exact Hkeep].
      simpl List.concat; rewrite !filter_app, IH; simpl; rewrite Hc; reflexivity.
Qed.

Lemma split_sentences_from_weight (skipping : bool) (cur s : str) :
  (weight (split_sentences_from skipping cur s) <= 1 + len cur + len s)%Z.
Proof.
  revert skipping cur; induction s as [|c s IH]; intros skipping cur.
  - simpl; unfold len; rewrite length_rev; simpl; lia.
  - simpl split_sentences_from.
    assert (Hkeep : (weight (split_sentences_from false (c :: cur) s)
                     <= 1 + len cur + len (c :: s))%Z).
    { specialize (IH false (c :: cur)); unfold len in *; simpl List.length in *; lia. }
    destruct (is_space c); [|exact Hkeep].
    destruct skipping.
    + specialize (IH true cur); unfold len in *; simpl List.length; lia.
    + destruct (ends_sentence cur); [|exact Hkeep].
      specialize (IH true []).
      change (weight (rev cur :: split_sentences_from true [] s))
        with (1 + len (rev cur) + weight (split_sentences_from true [] s))%Z.
      unfold len in *; rewrite length_rev; simpl List.length in *; lia.
Qed.

(** X6. Splitting into sentences gives at least one piece, loses white space
    only, and leaves no blank piece before the last. *)
Theorem split_sentences_keeps_ink (text : str) :
  split_sentences text <> []
  /\ ink (List.concat (split_sentences text)) = ink text
  /\ Forall (fun p => blank p = false) (removelast (split_sentences text)).
Proof.
  unfold split_sentences; split; [|split].
  - destruct (split_sentences_from_cons false [] text) as [p [rest ->]].
    discriminate.
  - apply (split_sentences_from_ink false [] text).
  - apply split_sentences_from_inked.
Qed.

Lemma blank_ink (s : str) : blank s = true <-> ink s = [].
Proof.
  unfold blank, ink; induction s as [|c s IH]; simpl; [tauto|].
  destruct (is_space c); simpl; [exact IH|].
  split; discriminate.
Qed.

Lemma ink_concat_blank (pieces : list str) :
  Forall (fun p => blank p = true) pieces -> ink (List.concat pieces) = [].
Proof.
  induction 1 as [|p rest Hp _ IH]; [reflexivity|].
  simpl; unfold ink in *; rewrite filter_app, IH, app_nil_r.
  apply blank_ink; exact Hp.
Qed.

Lemma some_piece_inked (text : str) :
  blank text = false ->
  exists p, In p (split_sentences text) /\ blank p = false.
Proof.
  intros Hb.
  destruct (Exists_dec (fun p => blank p = false) (split_sentences text))
    as [He|Hn].
  - intros p; destruct (blank p); [right; discriminate | left; reflexivity].
  - apply Exists_exists in He; exact He.
  - exfalso.
    assert (Hall : Forall (fun p => blank p = true) (split_sentences text)).
    { apply Forall_forall; intros p Hp.
      destruct (blank p) eqn:E; [reflexivity|].
      exfalso; apply Hn, Exists_exists; exists p; split; assumption. }
    apply ink_concat_blank in Hall.
    unfold split_sentences in Hall.
    rewrite (split_sentences_from_ink false [] text) in Hall.
    change (rev [] ++ text) with text in Hall.
    apply blank_ink in Hall; congruence.
Qed.

Section Fold.
Variables chunk_size overlap : Z.

Lemma blank_lit_space : blank (lit " ") = true.
Proof. reflexivity. Qed.

Lemma blank_tail (a b s : str) :
  blank s = false -> blank (a ++ b ++ s) = false.
Proof. intros H; rewrite !blank_app, H, !andb_false_r; reflexivity. Qed.

Lemma chunk_step_keeps (st : list str * str) (s : str) :
  kept st \/ blank s = false -> kept (chunk_step chunk_size overlap st s).
Proof.
  destruct st as [chunks cur]; unfold kept, chunk_step; cbn [fst snd].
  destruct ((len cur + len s >? chunk_size)%Z && truthy cur)%bool;
    cbn [fst snd].
  - intros _; left; destruct chunks; discriminate.
  - intros [[H|H]|H].
    + left; exact H.
    + right; destruct cur as [|c cur]; [discriminate|].
      cbn [truthy].
      rewrite blank_app, H; reflexivity.
    + right; destruct (truthy cur); [|exact H].
      exact (blank_tail cur (lit " ") s H).
Qed.

Lemma fold_keeps (ss : list str) (st : list str * str) :
  kept st \/ Exists (fun s => blank s = false) ss ->
  kept (fold_left (chunk_step chunk_size overlap) ss st).
Proof.
  revert st; induction ss as [|s ss IH]; intros st H; simpl.
  - destruct H as [H|H]; [exact H | inversion H].
  - apply IH.
    destruct H as [H|H].
    + left; apply chunk_step_keeps; left; exact H.
    + inversion H; subst.
      * left; apply chunk_step_keeps; right; assumption.
      * right; assumption.
Qed.

Lemma strip_trimmed (buf : str) : blank buf = false -> trimmed (strip buf).
Proof.
  intros H; split; [|apply strip_strip].
  pose proof (strip_truthy buf) as Ht; rewrite H in Ht.
  destruct (strip buf); [discriminate | discriminate].
Qed.

Lemma fold_trimmed (ss : list str) (st : list str * str) :
  Forall (fun p => blank p = false) (removelast ss) ->
  Forall trimmed (fst st) ->
  snd st = [] \/ blank (snd st) = false ->
  Forall trimmed (fst (fold_left (chunk_step chunk_size overlap) ss st)).
Proof.
  revert st; induction ss as [|s ss IH]; intros [chunks cur] Hss Hchunks Hcur.
  - exact Hchunks.
  - simpl fold_left; simpl in Hchunks, Hcur.
    assert (Hstep : Forall trimmed
                      (fst (chunk_step chunk_size overlap (chunks, cur) s))).
    { unfold chunk_step.
      destruct ((len cur + len s >? chunk_size)%Z && truthy cur)%bool eqn:Hc;
        simpl; [|exact Hchunks].
      apply andb_true_iff in Hc; destruct Hc as [_ Ht].
      apply Forall_app; split; [exact Hchunks|].
      constructor; [|constructor].
      apply strip_trimmed.
      destruct Hcur as [->|H]; [discriminate | exact H]. }
    destruct ss as [|s' ss']; [exact Hstep|].
    apply IH; [| exact Hstep |].
    + change (removelast (s :: s' :: ss'))
        with (s :: removelast (s' :: ss')) in Hss.
      inversion Hss; assumption.
    + right.
      change (removelast (s :: s' :: ss'))
        with (s :: removelast (s' :: ss')) in Hss.
      inversion Hss as [|? ? Hs _]; subst.
      clear Hstep; unfold chunk_step.
      destruct ((len cur + len s >? chunk_size)%Z && truthy cur)%bool;
        cbn [fst snd].
      * exact (blank_tail _ (lit " ") s Hs).
      * destruct (truthy cur); [|exact Hs].
        exact (blank_tail cur (lit " ") s Hs).
Qed.

Lemma weight_nonneg (ss : list str) : (0 <= weight ss)%Z.
Proof.
  induction ss as [|p r IH]; [simpl; lia|].
  change (weight (p :: r)) with (1 + len p + weight r)%Z.
  unfold len; lia.
Qed.

(** While the buffer and what is still to come fit, no chunk is closed.
    A non-empty buffer counts one more than its length, for the space
    that would join the next sentence to it. *)
Lemma fold_fits (ss : list str) (cur : str) :
  ((if truthy cur then len cur + 1 else 0) + weight ss <= chunk_size + 1)%Z ->
  exists cur',
    fold_left (chunk_step chunk_size overlap) ss ([], cur) = ([], cur')
    /\ ((if truthy cur' then len cur' + 1 else 0)
        <= (if truthy cur then len cur + 1 else 0) + weight ss)%Z.
Proof.
  revert cur; induction ss as [|s ss IH]; intros cur H.
  - exists cur; split; [reflexivity | simpl; lia].
  - change (weight (s :: ss)) with (1 + len s + weight ss)%Z in *.
    pose proof (weight_nonneg ss) as Hw.
    assert (Hs : (0 <= len s)%Z) by (unfold len; lia).
    assert (Estep : chunk_step chunk_size overlap ([], cur) s
                    = ([], if truthy cur then cur ++ lit " " ++ s else s)).
    { unfold chunk_step.
      destruct (truthy cur) eqn:Ht; [|rewrite andb_false_r; reflexivity].
      destruct (Z.gtb_spec (len cur + len s) chunk_size) as [Hgt|Hle]; [lia|].
      reflexivity. }
    change (fold_left (chunk_step chunk_size overlap) (s :: ss) ([], cur))
      with (fold_left (chunk_step chunk_size overlap) ss
                      (chunk_step chunk_size overlap ([], cur) s)).
    rewrite Estep; clear Estep.
    destruct (truthy cur) eqn:Ht.
    + assert (Hj : truthy (cur ++ lit " " ++ s) = true)
        by (destruct cur; [discriminate | reflexivity]).
      assert (Hl : len (cur ++ lit " " ++ s) = (len cur + 1 + len s)%Z).
      { unfold len; rewrite !length_app; simpl List.length; lia. }
      destruct (IH (cur ++ lit " " ++ s)) as [cur' [E Hlen]].
      { rewrite Hj, Hl; lia. }
      exists cur'; split; [exact E|].
      rewrite Hj, Hl in Hlen; lia.
    + destruct (IH s) as [cur' [E Hlen]].
      { destruct (truthy s); lia. }
      exists cur'; split; [exact E|].
      destruct (truthy s); lia.
Qed.

End Fold.

Lemma chunk_text_blank (text : str) (chunk_size overlap : Z) :
  chunk_text text chunk_size overlap = [] <-> blank text = true.
Proof.
  unfold chunk_text; split.
  - intros H.
    destruct (blank text) eqn:Hb; [reflexivity|]; exfalso.
    destruct (some_piece_inked text Hb) as [p [Hin Hp]].
    assert (Hk : kept (fold_left (chunk_step chunk_size overlap)
                                 (split_sentences text) ([], []))).
    { apply fold_keeps; right; apply Exists_exists; exists p; split; assumption. }
    destruct (fold_left _ _ _) as [chunks cur]; unfold kept in Hk; simpl in Hk.
    rewrite strip_truthy in H.
    destruct Hk as [Hk|Hk].
    + destruct (negb (blank cur)); [|contradiction].
      destruct chunks; [contradiction | discriminate].
    + rewrite Hk in H; destruct chunks; discriminate.
  - intros Hb.
    assert (Hk : forall cur s,
               blank s = true -> ends_sentence cur = false ->
               split_sentences_from false cur s = [rev cur ++ s]).
    { intros cur s; revert cur; induction s as [|c s IH]; intros cur Hs Hc.
      - simpl; rewrite app_nil_r; reflexivity.
      - simpl in Hs; apply andb_true_iff in Hs; destruct Hs as [Hsp Hs].
        simpl; rewrite Hsp, Hc, (IH (c :: cur) Hs); simpl.
        + rewrite <- app_assoc; reflexivity.
        + destruct (is_terminal c) eqn:Ht; [|reflexivity].
          rewrite (terminal_not_space _ Ht) in Hsp; discriminate. }
    unfold split_sentences; rewrite (Hk [] text Hb eq_refl); simpl.
    rewrite andb_false_r, strip_truthy, Hb; reflexivity.
Qed.

(** X1. No chunk comes out exactly when the text is blank: empty, or white
    space only. *)
Theorem chunk_text_nil_iff_blank (text : str) (chunk_size overlap : Z) :
  chunk_text text chunk_size overlap = [] <-> blank text = true.
Proof. apply chunk_text_blank. Qed.

(** X2. Every chunk is non-empty and carries no white space at either end. *)
Theorem chunks_trimmed (text : str) (chunk_size overlap : Z) :
  Forall trimmed (chunk_text text chunk_size overlap).
Proof.
  unfold chunk_text.
  pose proof (fold_trimmed chunk_size overlap (split_sentences text) ([], [])
                (split_sentences_from_inked false [] text)
                (Forall_nil _) (or_introl eq_refl)) as H.
  destruct (fold_left _ _ _) as [chunks cur]; simpl in H.
  destruct (truthy (strip cur)) eqn:Ht; [|exact H].
  apply Forall_app; split; [exact H|].
  constructor; [|constructor].
  apply strip_trimmed.
  rewrite strip_truthy in Ht; destruct (blank cur); [discriminate|reflexivity].
Qed.

(** X4. A text that fits in [chunk_size] is never cut: it gives one chunk at
    most, no longer than the text. *)
Theorem short_text_one_chunk (text : str) (chunk_size overlap : Z) :
  (len text <= chunk_size)%Z ->
  chunk_text text chunk_size overlap = []
  \/ exists chunk, chunk_text text chunk_size overlap = [chunk]
                   /\ (len chunk <= len text)%Z.
Proof.
  intros Hfit; unfold chunk_text.
  pose proof (split_sentences_from_weight false [] text) as Hw.
  fold (split_sentences text) in Hw.
  destruct (fold_fits chunk_size overlap (split_sentences text) [])
    as [cur [E Hlen]].
  { simpl truthy; cbv iota; unfold len in *; simpl List.length in *; lia. }
  cbv zeta.
  match goal with
  | |- context [fold_left ?f ?l ?a] =>
      replace (fold_left f l a) with (@nil str, cur) by (symmetry; exact E)
  end.
  destruct (truthy (strip cur)); [right | left; reflexivity].
  exists (strip cur); split; [reflexivity|].
  pose proof (strip_length cur).
  simpl truthy in Hlen; cbv iota in Hlen.
  destruct cur as [|c cur]; simpl truthy in Hlen; cbv iota in Hlen;
    unfold len in *; simpl List.length in *; lia.
Qed.

(** X5. For a positive [overlap] the words carried into the new buffer are
    the last [overlap/5] rounded up words of the closed buffer, all of
    them when there are fewer. *)
Theorem carried_words_round_up (overlap : Z) (words : list str) :
  (0 < overlap)%Z ->
  overlap_words overlap words = last_n (Z.to_nat ((overlap + 4) / 5)) words
  /\ List.length (overlap_words overlap words)
     = Nat.min (Z.to_nat ((overlap + 4) / 5)) (List.length words).
Proof.
  intros H; rewrite (@overlap_words_rounds_up overlap words H).
  split; [reflexivity | apply last_n_length].
Qed.

Lemma carried_words_round_up_witness :
  overlap_words 7 [lit "one"; lit "two"; lit "three."]
  = last_n 2 [lit "one"; lit "two"; lit "three."]
  /\ List.length (overlap_words 7 [lit "one"; lit "two"; lit "three."])
     = 2%nat.
Proof.
  apply (@carried_words_round_up 7%Z [lit "one"; lit "two"; lit "three."]).
  lia.
Defined.

Lemma short_text_one_chunk_witness :
  chunk_text (lit "aaaa. bbbb.") 11 150 = []
  \/ exists chunk, chunk_text (lit "aaaa. bbbb.") 11 150 = [chunk]
                   /\ (len chunk <= len (lit "aaaa. bbbb."))%Z.
Proof.
  apply (@short_text_one_chunk (lit "aaaa. bbbb.") 11%Z 150%Z).
  vm_compute; discriminate.
Defined.

(** ** The chunks, buffer by buffer *)

Lemma join_snoc (sep : str) (l : list str) (s : str) :
  l <> [] -> join sep (l ++ [s]) = join sep l ++ sep ++ s.
Proof.
  induction l as [|p l IH]; [congruence|]; intros _.
  destruct l as [|p' l]; [reflexivity|].
  change (join sep ((p :: p' :: l) ++ [s]))
    with (p ++ sep ++ join sep ((p' :: l) ++ [s])).
  rewrite IH by discriminate.
  change (join sep (p :: p' :: l)) with (p ++ sep ++ join sep (p' :: l)).
  rewrite <- !app_assoc; reflexivity.
Qed.

Lemma last_cons (A : Type) (x d : A) (l : list A) :
  List.last (x :: l) d = List.last l x.
Proof.
  revert x d; induction l as [|y l IH]; intros x d; [reflexivity|].
  change (List.last (x :: y :: l) d) with (List.last (y :: l) d).
  rewrite (IH y d), (IH y x); reflexivity.
Qed.

Lemma chained_snoc (overlap : Z) (before : option buffer)
      (l : list buffer) (b : buffer) :
  chained overlap before (l ++ [b])
  <-> chained overlap before l
      /\ carried b
         = option_map (fun p => overlap_words overlap (split (buffer_text p)))
                      (List.last (List.map Some l) before).
Proof.
  revert before; induction l as [|a l IH]; intros before.
  - simpl; tauto.
  - change (chained overlap before ((a :: l) ++ [b]))
      with (carried a
            = option_map
                (fun p => overlap_words overlap (split (buffer_text p))) before
            /\ chained overlap (Some a) (l ++ [b])).
    rewrite IH; simpl List.map; rewrite last_cons; simpl chained; tauto.
Qed.

Lemma truthy_seeded (a s : str) : truthy (a ++ lit " " ++ s) = true.
Proof. destruct a; reflexivity. Qed.

Section Buffers.
Variables chunk_size overlap : Z.

(** The loop, followed buffer by buffer. [closed] are the buffers closed
    so far and [b] the one being filled. *)
Lemma fold_buffers (ss : list str) :
  forall (closed : list buffer) (b : buffer),
    Forall (fun p => truthy p = true) (removelast ss) ->
    (held b = [] -> carried b = None /\ closed = []) ->
    (held b <> [] -> truthy (buffer_text b) = true \/ ss = []) ->
    Forall (fun c => held c <> []) closed ->
    chained overlap None (closed ++ [b]) ->
    Forall (fun c => (2 <= List.length (held c))%nat ->
                     (len (buffer_text c) <= chunk_size + 1)%Z)
           (closed ++ [b]) ->
    exists closed' b',
      fold_left (chunk_step chunk_size overlap) ss
                (List.map (fun c => strip (buffer_text c)) closed,
                 buffer_text b)
      = (List.map (fun c => strip (buffer_text c)) closed', buffer_text b')
      /\ List.concat (List.map held (closed' ++ [b']))
         = List.concat (List.map held (closed ++ [b])) ++ ss
      /\ (ss <> [] \/ held b <> [] -> held b' <> [])
      /\ Forall (fun c => held c <> []) closed'
      /\ chained overlap None (closed' ++ [b'])
      /\ Forall (fun c => (2 <= List.length (held c))%nat ->
                          (len (buffer_text c) <= chunk_size + 1)%Z)
                (closed' ++ [b']).
Proof.
  induction ss as [|s ss IH]; intros closed b Hss Hnew Hfull Hclosed Hch Hfit.
  - exists closed, b; rewrite app_nil_r; repeat split; try assumption.
    intros [H|H]; [congruence | exact H].
  - assert (Hss' : Forall (fun p => truthy p = true) (removelast ss)).
    { destruct ss as [|s' ss']; [constructor|].
      change (removelast (s :: s' :: ss'))
        with (s :: removelast (s' :: ss')) in Hss.
      inversion Hss; assumption. }
    assert (Hs : ss <> [] -> truthy s = true).
    { destruct ss as [|s' ss']; [congruence|]; intros _.
      change (removelast (s :: s' :: ss'))
        with (s :: removelast (s' :: ss')) in Hss.
      inversion Hss; assumption. }
    assert (Hgoal : forall closed1 b1,
              chunk_step chunk_size overlap
                (List.map (fun c => strip (buffer_text c)) closed,
                 buffer_text b) s
              = (List.map (fun c => strip (buffer_text c)) closed1,
                 buffer_text b1) ->
              List.concat (List.map held (closed1 ++ [b1]))
              = List.concat (List.map held (closed ++ [b])) ++ [s] ->
              held b1 <> [] ->
              (truthy (buffer_text b1) = true \/ ss = []) ->
              Forall (fun c => held c <> []) closed1 ->
              chained overlap None (closed1 ++ [b1]) ->
              Forall (fun c => (2 <= List.length (held c))%nat ->
                               (len (buffer_text c) <= chunk_size + 1)%Z)
                     (closed1 ++ [b1]) ->
              exists closed' b',
                fold_left (chunk_step chunk_size overlap) (s :: ss)
                          (List.map (fun c => strip (buffer_text c)) closed,
                           buffer_text b)
                = (List.map (fun c => strip (buffer_text c)) closed',
                   buffer_text b')
                /\ List.concat (List.map held (closed' ++ [b']))
                   = List.concat (List.map held (closed ++ [b])) ++ s :: ss
                /\ (s :: ss <> [] \/ held b <> [] -> held b' <> [])
                /\ Forall (fun c => held c <> []) closed'
                /\ chained overlap None (closed' ++ [b'])
                /\ Forall (fun c => (2 <= List.length (held c))%nat ->
                                    (len (buffer_text c) <= chunk_size + 1)%Z)
                          (closed' ++ [b'])).
    { intros closed1 b1 Estep Econcat Hheld Htruthy Hcl Hchain Hfits.
      destruct (IH closed1 b1 Hss') as [closed' [b' [E [Ec [Hh [Hc' [Hch' Hf']]]]]]];
        try assumption.
      - intros H; contradiction.
      - intros _; exact Htruthy.
      - exists closed', b'; split; [|split; [|split; [|split; [|split]]]];
          try assumption.
        + cbn [fold_left]; rewrite Estep; exact E.
        + rewrite Ec, Econcat, <- app_assoc; reflexivity.
        + intros _; apply Hh; right; exact Hheld. }
    destruct (held b) as [|s0 rest] eqn:Hheld.
    + (* the first sentence *)
      destruct (Hnew eq_refl) as [Hcar ->].
      assert (Etext : buffer_text b = []).
      { unfold buffer_text; rewrite Hcar, Hheld; reflexivity. }
      apply (Hgoal [] {| carried := None; held := [s] |}).
      * unfold chunk_step; rewrite Etext; simpl truthy.
        rewrite andb_false_r; reflexivity.
      * simpl; rewrite Hheld; reflexivity.
      * discriminate.
      * destruct ss as [|s' ss']; [right; reflexivity | left].
        apply Hs; discriminate.
      * constructor.
      * simpl; split; [reflexivity | exact I].
      * constructor; [|constructor]; simpl; lia.
    + destruct (Hfull ltac:(discriminate)) as [Ht|Hnil]; [|discriminate].
      destruct (len (buffer_text b) + len s >? chunk_size)%Z eqn:Hgt.
      * (* the buffer is closed *)
        apply (Hgoal (closed ++ [b])
                     {| carried := Some (overlap_words overlap
                                           (split (buffer_text b)));
                        held := [s] |}).
        -- unfold chunk_step; rewrite Hgt, Ht, map_app; reflexivity.
        -- rewrite !map_app, !concat_app; simpl; rewrite !app_nil_r.
           reflexivity.
        -- discriminate.
        -- left; apply truthy_seeded.
        -- apply Forall_app; split; [exact Hclosed|].
           constructor; [rewrite Hheld; discriminate | constructor].
        -- apply chained_snoc; split; [exact Hch|].
           rewrite map_app; change (List.map Some [b]) with [Some b].
           rewrite last_last; reflexivity.
        -- apply Forall_app; split; [exact Hfit|].
           constructor; [|constructor]; simpl; lia.
      * (* the sentence is appended *)
        apply Forall_app in Hfit; destruct Hfit as [Hfit _].
        apply chained_snoc in Hch; destruct Hch as [Hch Hcar].
        assert (Etext : buffer_text {| carried := carried b;
                                       held := held b ++ [s] |}
                        = buffer_text b ++ lit " " ++ s).
        { unfold buffer_text; simpl.
          rewrite join_snoc by (rewrite Hheld; discriminate).
          destruct (carried b); rewrite <- ?app_assoc; reflexivity. }
        assert (Hroom : (len (buffer_text b) + len s <= chunk_size)%Z)
          by (rewrite Z.gtb_ltb in Hgt; apply Z.ltb_ge in Hgt; exact Hgt).
        apply (Hgoal closed {| carried := carried b; held := held b ++ [s] |}).
        -- unfold chunk_step; rewrite Hgt, Ht, Etext; reflexivity.
        -- rewrite !map_app, !concat_app; simpl; rewrite !app_nil_r.
           rewrite Hheld, <- app_assoc; reflexivity.
        -- simpl; rewrite Hheld; discriminate.
        -- left; rewrite Etext; apply truthy_seeded.
        -- exact Hclosed.
        -- apply chained_snoc; split; [exact Hch | exact Hcar].
        -- apply Forall_app; split; [exact Hfit|].
           constructor; [|constructor]; intros _.
           rewrite Etext; unfold len in *; rewrite !length_app.
           simpl List.length; lia.
Qed.

End Buffers.

(** X3. The chunks are the buffers of the loop, stripped, the last one
    left out when it is blank. Every buffer holds at least one sentence,
    and the sentences of the buffers, in order, are the sentences of the
    text, each once. The first buffer is its sentences joined by single
    spaces; every later one starts with the words carried over from the
    buffer closed before it. A buffer that holds two sentences or more is
    at most [chunk_size + 1] code points long, so a longer chunk is a
    single sentence behind its carried words. *)
Theorem chunks_are_buffers (text : str) (chunk_size overlap : Z) :
  exists (closed : list buffer) (final : buffer),
    chunk_text text chunk_size overlap
    = List.map (fun b => strip (buffer_text b)) closed
      ++ (if truthy (strip (buffer_text final))
          then [strip (buffer_text final)] else [])
    /\ List.concat (List.map held (closed ++ [final])) = split_sentences text
    /\ Forall (fun b => held b <> []) (closed ++ [final])
    /\ chained overlap None (closed ++ [final])
    /\ Forall (fun b => (2 <= List.length (held b))%nat ->
                        (len (buffer_text b) <= chunk_size + 1)%Z)
              (closed ++ [final]).
Proof.
  assert (Hss : Forall (fun p => truthy p = true)
                       (removelast (split_sentences text))).
  { eapply Forall_impl; [|apply (split_sentences_from_inked false [] text)].
    intros p Hp; destruct p; [discriminate | reflexivity]. }
  destruct (@fold_buffers chunk_size overlap (split_sentences text) []
              {| carried := None; held := [] |} Hss)
    as [closed [final [E [Ec [Hh [Hcl [Hch Hfit]]]]]]].
  - intros _; split; reflexivity.
  - intros H; contradiction.
  - constructor.
  - simpl; split; [reflexivity | exact I].
  - constructor; [|constructor]; simpl; lia.
  - exists closed, final; split; [|split; [|split; [|split]]].
    + unfold chunk_text.
      change (@nil str, @nil N)
        with (List.map (fun c => strip (buffer_text c)) [],
              buffer_text {| carried := None; held := [] |}).
      rewrite E.
      destruct (truthy (strip (buffer_text final)));
        [reflexivity | rewrite app_nil_r; reflexivity].
    + exact Ec.
    + apply Forall_app; split; [exact Hcl|].
      constructor; [|constructor].
      apply Hh; left.
      unfold split_sentences.
      destruct (split_sentences_from_cons false [] text) as [p [rest ->]].
      discriminate.
    + exact Hch.
    + exact Hfit.
Qed.

End ChunkerMore.

(* ================================================================== *)
(** * More about the time window and the intent parser *)

Module ParsersMore.
Import Intent TimeWindow PyText PyStrFacts.

(** On ASCII text [lower] works code point by code point, whatever
    surrounds it. *)
Lemma lower_from_ascii ext (before w after : str) :
  forallb is_ascii w = true ->
  lower_from ext before (w ++ after)
  = List.map ascii_lower w ++ lower_from ext (before ++ w) after.
Proof.
  revert before; induction w as [|c w IH]; intros before H.
  - simpl; rewrite app_nil_r; reflexivity.
  - simpl in H; apply andb_true_iff in H; destruct H as [Hc Hw].
    simpl; rewrite (IH _ Hw), <- app_assoc.
    unfold lower_cp, ascii_lower; unfold is_ascii in Hc; rewrite Hc.
    destruct (in_range 65 90 c); reflexivity.
Qed.

Lemma lower_from_infix ext (before a w b : str) :
  forallb is_ascii w = true ->
  exists x y,
    lower_from ext before (a ++ w ++ b) = x ++ List.map ascii_lower w ++ y.
Proof.
  intros Hw; revert before; induction a as [|c a IH]; intros before.
  - exists [], (lower_from ext (before ++ w) b).
    simpl; apply lower_from_ascii; exact Hw.
  - destruct (IH (before ++ [c])) as [x [y E]].
    exists (lower_cp ext before c (a ++ w ++ b) ++ x), y.
    simpl; rewrite E, <- app_assoc; reflexivity.
Qed.

Lemma contains_lower ext (w message : str) :
  forallb is_ascii w = true ->
  contains w message = true ->
  contains (List.map ascii_lower w) (lower ext message) = true.
Proof.
  intros Hw H; apply contains_infix in H; destruct H as [a [b ->]].
  apply contains_infix; unfold lower.
  apply lower_from_infix; exact Hw.
Qed.

(** X7. The window is 1, 2, 7 or 30 days, and nothing else: 14 is never
    answered. *)
Theorem extract_time_context_range lower_ext (message : str) :
  In (extract_time_context lower_ext message) [1; 2; 7; 30]%Z.
Proof.
  pose proof (TimeWindowFacts.next_week_unreachable lower_ext message) as H14.
  unfold extract_time_context in *.
  set (m := lower lower_ext message) in *.
  destruct (any_in [lit "today"; lit "this morning"; lit "this afternoon"] m);
    [simpl; tauto|].
  destruct (any_in [lit "tomorrow"; lit "next day"] m); [simpl; tauto|].
  destruct (any_in [lit "this week"; lit "week"] m); [simpl; tauto|].
  destruct (any_in [lit "next week"] m); [contradiction|].
  destruct (any_in [lit "month"; lit "this month"] m); simpl; tauto.
Qed.

(** X8. A message that holds "today", "this morning" or "this afternoon" in
    any mix of ASCII capitals and small letters gets one day, whatever
    else it says. *)
Theorem today_in_any_case lower_ext (w message : str) :
  forallb is_ascii w = true ->
  In (List.map ascii_lower w)
     [lit "today"; lit "this morning"; lit "this afternoon"] ->
  contains w message = true ->
  extract_time_context lower_ext message = 1%Z.
Proof.
  intros Hw Hin H.
  pose proof (contains_lower lower_ext w message Hw H) as Hc.
  unfold extract_time_context.
  replace (any_in [lit "today"; lit "this morning"; lit "this afternoon"]
                  (lower lower_ext message)) with true; [reflexivity|].
  symmetry; unfold any_in; apply existsb_exists.
  exists (List.map ascii_lower w); split; assumption.
Qed.

Lemma today_in_any_case_witness :
  extract_time_context (fun _ _ _ => []) (lit "Next week, not TODAY") = 1%Z.
Proof.
  apply (today_in_any_case (fun _ _ _ => []) (lit "TODAY")).
  - reflexivity.
  - left; reflexivity.
  - reflexivity.
Defined.

(** X9. A completion that holds a word whose upper case is "CALENDAR"
    ("calendar", "Calendar", ...) is CALENDAR, whatever else it holds. *)
Theorem calendar_in_any_case upper_ext (w completion : str) :
  upper upper_ext w = lit "CALENDAR" ->
  contains w completion = true ->
  detect_user_intent upper_ext completion = CALENDAR.
Proof.
  intros Hw H.
  rewrite IntentFacts.detect_user_intent_cascade.
  apply contains_infix in H; destruct H as [a [b ->]].
  replace (contains (lit "CALENDAR")
                    (upper upper_ext (a ++ w ++ b))) with true; [reflexivity|].
  symmetry; apply contains_infix.
  rewrite !upper_app, Hw; eexists; eexists; reflexivity.
Qed.

Lemma calendar_in_any_case_witness :
  detect_user_intent (fun _ => []) (lit "Email about the Calendar") = CALENDAR.
Proof.
  apply (calendar_in_any_case (fun _ => []) (lit "Calendar")); reflexivity.
Defined.

End ParsersMore.

(* ================================================================== *)
(** * More about the table, the index and the search *)

Module AgentMore.
Import Agent Table PyText.

Lemma fold_max_ge (l : list Z) (a : Z) :
  (a <= fold_left Z.max l a)%Z
  /\ forall x, In x l -> (x <= fold_left Z.max l a)%Z.
Proof.
  revert a; induction l as [|y l IH]; intros a; simpl.
  - split; [lia | contradiction].
  - destruct (IH (Z.max a y)) as [H1 H2]; split; [lia|].
    intros x [->|Hx]; [lia | apply H2; exact Hx].
Qed.

(** The next id is above every id of the table. *)
Lemma next_id_above (docs : list row) (r : row) :
  In r docs -> (row_id r < next_id docs)%Z.
Proof.
  intros H; unfold next_id.
  pose proof (proj2 (fold_max_ge (List.map row_id docs) 0) (row_id r)
                    (in_map row_id _ _ H)).
  lia.
Qed.

Lemma next_id_snoc (docs : list row) (r : row) :
  row_id r = next_id docs -> next_id (docs ++ [r]) = (next_id docs + 1)%Z.
Proof.
  unfold next_id; intros H.
  rewrite map_app, fold_left_app; simpl; rewrite H.
  pose proof (proj1 (fold_max_ge (List.map row_id docs) 0)); lia.
Qed.

Lemma count_from_succ (first : Z) (n : nat) :
  count_from first (S n) = first :: count_from (first + 1) n.
Proof.
  unfold count_from; simpl; rewrite <- seq_shift, map_map.
  f_equal; [f_equal; lia|].
  apply map_ext; intros k; lia.
Qed.

(** The [INSERT] loop appends one row per chunk, in order, numbered from
    [i], with the next ids of the table. *)
Lemma insert_chunks_rows (chunks : list str) (docs : list row)
      (t s m : str) (i : Z) :
  exists rows,
    insert_chunks docs t s m i chunks = docs ++ rows
    /\ List.map row_content rows = chunks
    /\ List.map row_chunk_id rows = count_from i (List.length chunks)
    /\ ids rows = count_from (next_id docs) (List.length chunks)
    /\ Forall (fun r => row_title r = t /\ row_source r = s
                        /\ row_metadata r = Some m) rows.
Proof.
  revert docs i; induction chunks as [|chunk rest IH]; intros docs i.
  - exists []; rewrite app_nil_r; repeat split; constructor.
  - simpl insert_chunks.
    set (r0 := {| row_id := next_id docs; row_title := t;
                  row_content := chunk; row_source := s;
                  row_chunk_id := i; row_metadata := Some m |}).
    destruct (IH (docs ++ [r0]) (i + 1)%Z) as [rows [E [Hc [Hn [Hi Hf]]]]].
    exists (r0 :: rows); split; [|split; [|split; [|split]]].
    + rewrite E, <- app_assoc; reflexivity.
    + simpl; rewrite Hc; reflexivity.
    + simpl List.length; rewrite count_from_succ; simpl; rewrite Hn.
      reflexivity.
    + simpl List.length; rewrite count_from_succ.
      unfold ids in *; simpl; rewrite Hi, next_id_snoc; reflexivity.
    + constructor; [repeat split | exact Hf].
Qed.

Section More.
Variables vec index json timestamp : Type.
Variable encode : str -> vec.
Variable index_build : list vec -> index.
Variable index_search : index -> vec -> Z -> option (list (float * Z)).
Variable json_loads : str -> option json.
Variable fmt3 : float -> str.

Implicit Types (st : agent index json timestamp) (q : str) (top_k : Z)
         (min_score : float) (now : timestamp) (rs : list (result json)).

(** ** Adding a document *)

Lemma add_document_rows st (t c s m : str) :
  exists rows,
    documents (add_document encode index_build st t c s m)
    = documents st ++ rows
    /\ List.map row_content rows = Chunker.chunk_text c 1200 150
    /\ List.map row_chunk_id rows = count_from 0 (List.length rows)
    /\ ids rows = count_from (next_id (documents st)) (List.length rows)
    /\ Forall (fun r => row_title r = t /\ row_source r = s
                        /\ row_metadata r = Some m) rows.
Proof.
  destruct (insert_chunks_rows (Chunker.chunk_text c 1200 150)
                               (documents st) t s m 0)
    as [rows [E [Hc [Hn [Hi Hf]]]]].
  exists rows.
  assert (Hl : List.length rows
               = List.length (Chunker.chunk_text c 1200 150))
    by (rewrite <- Hc, length_map; reflexivity).
  rewrite Hl; repeat split; assumption.
Qed.

(** X10. [add_document] only appends: the rows already there stay as they are
    and in place. One row is added per chunk of the content, in order,
    numbered 0, 1, 2, ..., with the title, source and metadata given and
    with consecutive ids above every id of the table. *)
Theorem add_document_appends st (t c s m : str) :
  exists rows,
    documents (add_document encode index_build st t c s m)
    = documents st ++ rows
    /\ List.map row_content rows = Chunker.chunk_text c 1200 150
    /\ List.map row_chunk_id rows = count_from 0 (List.length rows)
    /\ ids rows = count_from (next_id (documents st)) (List.length rows)
    /\ Forall (fun r => row_title r = t /\ row_source r = s
                        /\ row_metadata r = Some m) rows
    /\ Forall (fun r => forall old, In old (documents st) ->
                                    (row_id old < row_id r)%Z) rows.
Proof.
  destruct (add_document_rows st t c s m) as [rows [E [Hc [Hn [Hi Hf]]]]].
  exists rows; repeat split; try assumption.
  apply Forall_forall; intros r Hr old Hold.
  pose proof (next_id_above _ _ Hold) as Hlt.
  assert (Hin : In (row_id r) (ids rows)) by (apply in_map; exact Hr).
  rewrite Hi in Hin; unfold count_from in Hin.
  apply in_map_iff in Hin; destruct Hin as [k [Hk _]]; lia.
Qed.

Lemma count_from_NoDup (first : Z) (n : nat) : NoDup (count_from first n).
Proof.
  revert first; induction n as [|n IH]; intros first; [constructor|].
  rewrite count_from_succ; constructor; [|apply IH].
  unfold count_from; intros H; apply in_map_iff in H.
  destruct H as [k [Hk _]]; lia.
Qed.

Lemma add_document_distinct st (t c s m : str) :
  NoDup (ids (documents st)) ->
  NoDup (ids (documents (add_document encode index_build st t c s m))).
Proof.
  intros Hnd.
  destruct (add_document_rows st t c s m) as [rows [E [_ [_ [Hi _]]]]].
  rewrite E; unfold ids in *; rewrite map_app.
  apply NoDup_app; [exact Hnd | rewrite Hi; apply count_from_NoDup |].
  intros z Hz Hz'; rewrite Hi in Hz'.
  apply in_map_iff in Hz; destruct Hz as [old [<- Hold]].
  pose proof (next_id_above _ _ Hold).
  unfold count_from in Hz'; apply in_map_iff in Hz'.
  destruct Hz' as [k [Hk _]]; lia.
Qed.

(** X11. With distinct ids, adding a document keeps them distinct. *)
Theorem add_document_keeps_ids_distinct st (t c s m : str) :
  NoDup (ids (documents st)) ->
  NoDup (ids (documents (add_document encode index_build st t c s m))).
Proof. apply add_document_distinct. Qed.

(** ** The chunk list mirrors the table *)

Lemma build_mirror st :
  document_chunks (build_vector_index encode index_build st)
  = List.map as_chunk (documents st)
  /\ documents (build_vector_index encode index_build st) = documents st
  /\ vector_index (build_vector_index encode index_build st)
     = match documents st with
       | [] => vector_index st
       | _ :: _ =>
           Some (index_build
                   (List.map (fun r => encode (row_content r)) (documents st)))
       end.
Proof.
  unfold build_vector_index; simpl; repeat split.
  rewrite map_map; simpl.
  destruct (documents st); reflexivity.
Qed.

(** A query leaves the agent as it was, but for the log. *)
Lemma search_frame st q top_k min_score now :
  exists log,
    fst (search_knowledge_base encode index_search json_loads fmt3
                               st q top_k min_score now)
    = set_recent st log.
Proof.
  unfold search_knowledge_base.
  destruct (search_results _ _ _ _ _ _ _) as [[e|[|r rs]]|]; simpl;
    try (exists (recent_knowledge_searches st); destruct st; reflexivity).
  eexists; reflexivity.
Qed.

Lemma reachable_mirror st :
  reachable encode index_build index_search json_loads fmt3 st ->
  document_chunks st = List.map as_chunk (documents st)
  /\ (vector_index st = None <-> documents st = []).
Proof.
  induction 1 as [rows | st t c s m _ [IH1 IH2]
                  | st q top_k min_score now _ [IH1 IH2]].
  - unfold init.
    destruct (build_mirror {| documents := rows; vector_index := None;
                              document_chunks := [];
                              recent_knowledge_searches := [] |})
      as [Hc [Hd Hi]].
    rewrite Hc, Hd, Hi; simpl; split; [reflexivity|].
    destruct rows; split; (reflexivity || discriminate).
  - unfold add_document.
    match goal with
    | |- context [build_vector_index _ _ ?x] =>
        destruct (build_mirror x) as [Hc [Hd Hi]]
    end.
    rewrite Hc, Hd, Hi; simpl; split; [reflexivity|].
    destruct (insert_chunks_rows (Chunker.chunk_text c 1200 150)
                                 (documents st) t s m 0) as [rows [E _]].
    rewrite E.
    destruct (documents st ++ rows) as [|r0 l] eqn:Eapp.
    + apply app_eq_nil in Eapp; destruct Eapp as [Hdocs _].
      split; [reflexivity | intros _; apply IH2; exact Hdocs].
    + split; discriminate.
  - destruct (search_frame st q top_k min_score now) as [log ->].
    simpl; split; assumption.
Qed.

(** X12. In every state the agent goes through, the retained chunk list is the
    table read in order, and there is an index exactly when the table
    holds a row. *)
Theorem chunks_mirror_table st :
  reachable encode index_build index_search json_loads fmt3 st ->
  document_chunks st = List.map as_chunk (documents st)
  /\ (vector_index st = None <-> documents st = []).
Proof. apply reachable_mirror. Qed.

(** ** Looking a row up by its id *)

Lemma fetchone_own (docs : list row) (r : row) :
  NoDup (ids docs) -> In r docs -> fetchone docs (row_id r) = Some r.
Proof.
  unfold fetchone, ids; induction docs as [|r0 docs IH]; intros Hnd Hin.
  - contradiction.
  - simpl in Hnd; inversion Hnd as [|? ? Hnotin Hnd']; subst.
    simpl; destruct (Z.eqb_spec (row_id r0) (row_id r)) as [E|E].
    + destruct Hin as [->|Hin]; [reflexivity|].
      exfalso; apply Hnotin; rewrite E; apply in_map; exact Hin.
    + destruct Hin as [->|Hin]; [congruence|].
      apply IH; assumption.
Qed.

Lemma fetchone_found (docs : list row) (doc_id : Z) (r : row) :
  fetchone docs doc_id = Some r -> In r docs /\ row_id r = doc_id.
Proof.
  unfold fetchone; intros H; apply find_some in H.
  destruct H as [Hin Heq]; split; [exact Hin | apply Z.eqb_eq; exact Heq].
Qed.

Lemma py_get_in (A : Type) (l : list A) (idx : Z) (a : A) :
  py_get l idx = inr a -> In a l.
Proof.
  unfold py_get; intros H.
  destruct ((0 <=? _)%Z && _)%bool; [|discriminate].
  destruct (nth_error l _) as [x|] eqn:E; [|discriminate].
  injection H as <-; apply (nth_error_In _ _ E).
Qed.

(** What the loop makes of the hits: no more results than hits, each the
    content of a retained chunk with the title and source of the row
    found under the chunk's id. *)
Lemma collect_origin st min_score hits rs :
  collect json_loads st min_score hits = inr rs ->
  (List.length rs <= List.length hits)%nat
  /\ Forall (fun res =>
               exists chunk r,
                 In chunk (document_chunks st)
                 /\ fetchone (documents st) (fst chunk) = Some r
                 /\ content res = snd chunk
                 /\ title res = row_title r
                 /\ source res = row_source r) rs.
Proof.
  revert rs; induction hits as [|[score idx] rest IH]; intros rs H.
  - injection H as <-; split; [simpl; lia | constructor].
  - simpl in H.
    assert (Hskip : collect json_loads st min_score rest = inr rs ->
                    (List.length rs <= List.length ((score, idx) :: rest))%nat
                    /\ Forall (fun res =>
                         exists chunk r,
                           In chunk (document_chunks st)
                           /\ fetchone (documents st) (fst chunk) = Some r
                           /\ content res = snd chunk
                           /\ title res = row_title r
                           /\ source res = row_source r) rs).
    { intros H'; destruct (IH _ H') as [Hl Hf]; split; [simpl; lia | exact Hf]. }
    destruct ((idx <? len (document_chunks st))%Z
              && Float32.score_above min_score score)%bool;
      [|apply Hskip; exact H].
    destruct (py_get (document_chunks st) idx) as [e|chunk] eqn:Hget;
      [discriminate|].
    simpl in H.
    destruct (fetchone (documents st) (fst chunk)) as [r|] eqn:Hrow;
      [|apply Hskip; exact H].
    destruct (json_loads (metadata_text r)) as [m|]; [|discriminate].
    simpl in H.
    destruct (collect json_loads st min_score rest) as [e|more];
      [discriminate|].
    injection H as <-.
    destruct (IH _ eq_refl) as [Hl Hf]; split; [simpl; lia|].
    constructor; [|exact Hf].
    exists chunk, r; simpl; repeat split; try assumption.
    apply (py_get_in _ _ Hget).
Qed.

(** X13. The loop returns no more results than the index gave hits, and every
    result carries the content of a retained chunk. *)
Theorem results_come_from_chunks st q top_k min_score hits rs :
  query_hits encode index_search st q top_k = Some (inr hits) ->
  search_results encode index_search json_loads st q top_k min_score
  = Some (inr rs) ->
  (List.length rs <= List.length hits)%nat
  /\ Forall (fun res => In (content res) (List.map snd (document_chunks st)))
            rs.
Proof.
  unfold search_results; intros Hq H; rewrite Hq in H.
  simpl in H; injection H as H.
  destruct (collect_origin _ _ _ H) as [Hl Hf]; split; [exact Hl|].
  apply Forall_forall; intros res Hres.
  rewrite Forall_forall in Hf.
  destruct (Hf _ Hres) as [chunk [r [Hin [_ [Hc _]]]]].
  rewrite Hc; apply in_map; exact Hin.
Qed.

(** X14. With distinct ids in the table, every result of a query is a row of
    the table: its content, title and source are those of one row. *)
Theorem results_are_rows st q top_k min_score rs :
  reachable encode index_build index_search json_loads fmt3 st ->
  NoDup (ids (documents st)) ->
  search_results encode index_search json_loads st q top_k min_score
  = Some (inr rs) ->
  Forall (fun res =>
            exists r, In r (documents st)
                      /\ content res = row_content r
                      /\ title res = row_title r
                      /\ source res = row_source r) rs.
Proof.
  intros Hreach Hnd H.
  destruct (reachable_mirror Hreach) as [Hmirror _].
  unfold search_results in H.
  destruct (query_hits encode index_search st q top_k) as [[e|hits]|];
    try discriminate.
  simpl in H; injection H as H.
  destruct (collect_origin _ _ _ H) as [_ Hf].
  apply Forall_forall; intros res Hres.
  rewrite Forall_forall in Hf.
  destruct (Hf _ Hres) as [chunk [r [Hin [Hrow [Hc [Ht Hs]]]]]].
  rewrite Hmirror in Hin; apply in_map_iff in Hin.
  destruct Hin as [r0 [<- Hr0]].
  simpl in Hrow; rewrite (fetchone_own _ _ Hnd Hr0) in Hrow.
  injection Hrow as <-.
  exists r0; repeat split; assumption.
Qed.

(** ** One query after another *)

Lemma search_results_frame st log q top_k min_score :
  search_results encode index_search json_loads (set_recent st log)
                 q top_k min_score
  = search_results encode index_search json_loads st q top_k min_score.
Proof.
  unfold search_results, query_hits; simpl.
  destruct (vector_index st) as [ix|]; [|reflexivity].
  destruct (len (document_chunks st) =? 0)%Z; [reflexivity|].
  destruct (index_search ix (encode q) top_k) as [hits|]; [|reflexivity].
  simpl; f_equal.
  induction hits as [|[score idx] rest IH]; [reflexivity|].
  simpl; rewrite IH; reflexivity.
Qed.

(** X15. An earlier query does not change what a later one finds or answers:
    results and returned text are those of the same query on the state
    before. *)
Theorem earlier_query_is_immaterial st q top_k min_score now
        q' top_k' min_score' now' :
  let st' := fst (search_knowledge_base encode index_search json_loads fmt3
                                        st q top_k min_score now) in
  search_results encode index_search json_loads st' q' top_k' min_score'
  = search_results encode index_search json_loads st q' top_k' min_score'
  /\ snd (search_knowledge_base encode index_search json_loads fmt3
                                st' q' top_k' min_score' now')
     = snd (search_knowledge_base encode index_search json_loads fmt3
                                  st q' top_k' min_score' now').
Proof.
  intros st'; subst st'.
  destruct (search_frame st q top_k min_score now) as [log ->].
  split; [apply search_results_frame|].
  unfold search_knowledge_base; rewrite search_results_frame.
  destruct (search_results _ _ _ st _ _ _) as [[e|[|r rs]]|]; reflexivity.
Qed.

(** X16. A query that ends with results answers their formatted list and
    leaves its own entry as the newest of the log. *)
Theorem newest_entry_is_the_query st q top_k min_score now r rs :
  search_results encode index_search json_loads st q top_k min_score
  = Some (inr (r :: rs)) ->
  let run := search_knowledge_base encode index_search json_loads fmt3
                                   st q top_k min_score now in
  snd run = Returned (format_results fmt3 (r :: rs))
  /\ exists older,
      recent_knowledge_searches (fst run)
      = older ++ [{| query := q; results := r :: rs; timestamp_of := now |}].
Proof.
  intros H run; subst run; unfold search_knowledge_base; rewrite H; simpl.
  split; [reflexivity|].
  rewrite AgentFacts.last_n_10; unfold last_n.
  set (info := {| query := q; results := r :: rs; timestamp_of := now |}).
  set (old := recent_knowledge_searches st).
  assert (Hle : (List.length (old ++ [info]) - 10 <= List.length old)%nat)
    by (rewrite length_app; simpl; lia).
  rewrite skipn_app.
  replace (List.length (old ++ [info]) - 10 - List.length old)%nat
    with 0%nat by lia.
  exists (skipn (List.length (old ++ [info]) - 10) old); reflexivity.
Qed.

(** ** Adding, then searching *)

Lemma add_document_blank st (t c s m : str) :
  blank c = true ->
  documents (add_document encode index_build st t c s m) = documents st.
Proof.
  intros Hb; unfold add_document.
  rewrite (proj2 (ChunkerMore.chunk_text_blank c 1200 150) Hb); reflexivity.
Qed.

Lemma add_document_inked st (t c s m : str) :
  blank c = false ->
  let st' := add_document encode index_build st t c s m in
  (List.length (documents st) < List.length (documents st'))%nat
  /\ vector_index st' <> None
  /\ document_chunks st' <> [].
Proof.
  intros Hb st'; subst st'.
  destruct (add_document_rows st t c s m) as [rows [E [Hc _]]].
  assert (Hrows : rows <> []).
  { intros ->; simpl in Hc; symmetry in Hc.
    apply ChunkerMore.chunk_text_blank in Hc; congruence. }
  unfold add_document in *.
  match goal with
  | |- context [build_vector_index _ _ ?x] =>
      destruct (build_mirror x) as [Hk [Hd Hi]]
  end.
  rewrite Hd in E; rewrite Hk, Hd, Hi; simpl in *; rewrite E.
  destruct rows as [|r0 rows]; [congruence|].
  split; [rewrite length_app; simpl; lia|].
  destruct (documents st); simpl; split; discriminate.
Qed.

(** X17. A document of white space only stores nothing. A document with any
    other content stores at least one row, after which there is an index
    and a search no longer answers that the knowledge base is empty. *)
Theorem add_document_then_search st (t c s m : str) q top_k min_score now :
  let st' := add_document encode index_build st t c s m in
  (blank c = true -> documents st' = documents st)
  /\ (blank c = false ->
      (List.length (documents st) < List.length (documents st'))%nat
      /\ vector_index st' <> None
      /\ snd (search_knowledge_base encode index_search json_loads fmt3
                                    st' q top_k min_score now)
         <> Returned EMPTY_MSG).
Proof.
  intros st'; split; [apply add_document_blank|].
  intros Hb.
  destruct (@add_document_inked st t c s m Hb) as [Hlen [Hix Hch]].
  fold st' in Hlen, Hix, Hch.
  split; [exact Hlen|]; split; [exact Hix|].
  unfold search_knowledge_base, search_results, query_hits.
  destruct (vector_index st') as [ix|]; [|congruence].
  destruct (document_chunks st') as [|dc dcs] eqn:E; [congruence|].
  change (len (dc :: dcs) =? 0)%Z with false; cbv iota.
  destruct (index_search ix (encode q) top_k) as [hits|]; simpl;
    [|discriminate].
  destruct (collect json_loads st' min_score hits) as [e|[|r rs]];
    discriminate.
Qed.

End More.

End AgentMore.

(* ================================================================== *)
(** * The search over the modelled index *)

Module RankingFacts.
Import Agent Table FlatIndex.

(** ** Comparing scores *)

Lemma ltb_chain (a b c : float) :
  is_nan b = false ->
  PrimFloat.ltb a b = false -> PrimFloat.ltb b c = false ->
  PrimFloat.ltb a c = false.
Proof.
  rewrite <- !Float32Facts.units_ltb; intros Hb.
  apply Float32Facts.fval_ltb_chain, Float32Facts.units_nan, Hb.
Qed.

Lemma ltb_asym (a b : float) :
  PrimFloat.ltb a b = true -> PrimFloat.ltb b a = false.
Proof.
  rewrite <- !Float32Facts.units_ltb.
  destruct (Float32.units a) as [| [|] | x], (Float32.units b) as [| [|] | y];
    cbn; try reflexivity; try discriminate.
  intros H; apply Z.ltb_lt in H; apply Z.ltb_ge; lia.
Qed.

(** ** The ranking *)

Section Rank.
Variable first_of : Z -> Z -> bool.

Lemma place_in (h x : float * Z) (l : list (float * Z)) :
  In x (place first_of h l) <-> x = h \/ In x l.
Proof.
  induction l as [|h' l IH]; simpl; [intuition congruence|].
  destruct (outranks first_of h' h); simpl; [rewrite IH|]; intuition congruence.
Qed.

Lemma place_length (h : float * Z) (l : list (float * Z)) :
  List.length (place first_of h l) = S (List.length l).
Proof.
  induction l as [|h' l IH]; simpl; [reflexivity|].
  destruct (outranks first_of h' h); simpl; [rewrite IH|]; reflexivity.
Qed.

Lemma place_filter (f : float * Z -> bool) (h : float * Z)
      (l : list (float * Z)) :
  List.length (filter f (place first_of h l))
  = List.length (filter f (h :: l)).
Proof.
  induction l as [|h' l IH]; [reflexivity|].
  simpl place; destruct (outranks first_of h' h); [|reflexivity].
  simpl in *; destruct (f h'), (f h); simpl in *; lia.
Qed.

(** Placing a hit among hits that never ascend leaves hits that never
    ascend. *)
Lemma place_descends (h : float * Z) (l : list (float * Z)) :
  Forall (fun x => is_nan (fst x) = false) l ->
  ForallOrdPairs (fun h1 h2 => PrimFloat.ltb (fst h1) (fst h2) = false) l ->
  ForallOrdPairs (fun h1 h2 => PrimFloat.ltb (fst h1) (fst h2) = false)
                 (place first_of h l).
Proof.
  intros Hnan Hl; induction Hl as [|h' l Hh' Hl IH].
  - constructor; constructor.
  - inversion Hnan as [|? ? Hn Hnan']; subst.
    simpl place; unfold outranks.
    destruct (PrimFloat.ltb (fst h) (fst h')) eqn:Hlt; cbn [orb].
    + constructor; [|apply IH; exact Hnan'].
      apply Forall_forall; intros x Hx; apply place_in in Hx.
      destruct Hx as [->|Hx]; [apply ltb_asym; exact Hlt|].
      rewrite Forall_forall in Hh'; apply Hh'; exact Hx.
    + destruct (negb (PrimFloat.ltb (fst h') (fst h))
                && first_of (snd h') (snd h))%bool eqn:Hp.
      * apply andb_true_iff in Hp; destruct Hp as [Hp _].
        apply negb_true_iff in Hp.
        constructor; [|apply IH; exact Hnan'].
        apply Forall_forall; intros x Hx; apply place_in in Hx.
        destruct Hx as [->|Hx]; [exact Hp|].
        rewrite Forall_forall in Hh'; apply Hh'; exact Hx.
      * constructor; [|constructor; assumption].
        constructor; [exact Hlt|].
        apply Forall_forall; intros x Hx.
        rewrite Forall_forall in Hh'.
        apply (ltb_chain Hn Hlt (Hh' _ Hx)).
Qed.

End Rank.

Section Ranked.
Variable first_of : Z -> Z -> bool.

Lemma rank_in (all : list (float * Z)) (x : float * Z) :
  In x (rank first_of all) <-> In x all.
Proof.
  unfold rank; induction all as [|h l IH]; simpl; [tauto|].
  rewrite place_in, IH; intuition congruence.
Qed.

Lemma rank_length (all : list (float * Z)) :
  List.length (rank first_of all) = List.length all.
Proof.
  unfold rank; induction all as [|h l IH]; simpl; [reflexivity|].
  rewrite place_length, IH; reflexivity.
Qed.

Lemma rank_filter (f : float * Z -> bool) (all : list (float * Z)) :
  List.length (filter f (rank first_of all)) = List.length (filter f all).
Proof.
  unfold rank; induction all as [|h l IH]; [reflexivity|].
  simpl fold_right; rewrite place_filter.
  simpl; destruct (f h); simpl; lia.
Qed.

(** The hits are ranked with the scores never ascending. *)
Lemma rank_descends (all : list (float * Z)) :
  Forall (fun x => is_nan (fst x) = false) all ->
  ForallOrdPairs (fun h1 h2 => PrimFloat.ltb (fst h1) (fst h2) = false)
                 (rank first_of all).
Proof.
  induction 1 as [|h l Hh Hl IH]; [constructor|].
  change (rank first_of (h :: l)) with (place first_of h (rank first_of l)).
  apply place_descends; [|exact IH].
  apply Forall_forall; intros x Hx.
  rewrite Forall_forall in Hl; apply Hl, (proj1 (rank_in l x)), Hx.
Qed.

End Ranked.

Lemma firstn_ord_pairs (A : Type) (R : A -> A -> Prop) (n : nat)
      (l : list A) :
  ForallOrdPairs R l -> ForallOrdPairs R (firstn n l).
Proof.
  intros H; revert n; induction H as [|a l Ha _ IH]; intros [|n]; simpl;
    try constructor; [|apply IH].
  apply Forall_forall; intros x Hx.
  rewrite Forall_forall in Ha; apply Ha.
  revert Hx; clear; revert n; induction l as [|b l IH]; intros [|n]; simpl;
    try tauto.
  intros [->|Hx]; [left; reflexivity | right; eapply IH; exact Hx].
Qed.

Lemma firstn_in (A : Type) (n : nat) (l : list A) (x : A) :
  In x (firstn n l) -> In x l.
Proof.
  revert n; induction l as [|b l IH]; intros [|n]; simpl; try tauto.
  intros [->|Hx]; [left; reflexivity | right; eapply IH; exact Hx].
Qed.

Lemma filter_length_le (A : Type) (f : A -> bool) (l : list A) :
  (List.length (filter f l) <= List.length l)%nat.
Proof.
  induction l as [|a l IH]; simpl; [lia|].
  destruct (f a); simpl; lia.
Qed.

Lemma find_first (A : Type) (f : A -> bool) (l : list A) (x : A) :
  In x l -> f x = true -> exists y, find f l = Some y.
Proof.
  induction l as [|a l IH]; simpl; [contradiction|].
  intros Hin Hx; destruct (f a) eqn:Ha; [exists a; reflexivity|].
  destruct Hin as [->|Hin]; [congruence | apply IH; assumption].
Qed.

Section Search.
Variables vec json timestamp : Type.
Variable encode : str -> vec.
Variable normalize : vec -> vec.
Variable inner : vec -> vec -> float.
Variable prefer : Z -> list (float * Z) -> Z -> Z -> bool.
Variable json_loads : str -> option json.
Variable fmt3 : float -> str.

Implicit Types (st : agent (list vec) json timestamp) (q : str) (top_k : Z)
         (min_score : float) (rs : list (result json)).

(** ** The entries of the index are the retained chunks *)

Lemma scored_from q (chunks : list (Z * str)) (first : Z) (h : float * Z) :
  In h (scored inner (encode q) first
               (index_build normalize
                            (List.map (fun dc => encode (snd dc)) chunks)))
  <-> exists p dc, nth_error chunks p = Some dc
                   /\ h = (entry_score normalize inner encode q dc,
                           (first + Z.of_nat p)%Z).
Proof.
  unfold index_build; revert first; induction chunks as [|dc chunks IH];
    intros first; simpl.
  - split; [contradiction|].
    intros [[|p] [dc [Hp _]]]; discriminate.
  - fold (entry_score normalize inner encode q dc); rewrite IH; split.
    + intros [<-|[p [dc' [Hp ->]]]].
      * exists 0%nat, dc; split; [reflexivity | f_equal; lia].
      * exists (S p), dc'; split; [exact Hp | f_equal; lia].
    + intros [[|p] [dc' [Hp ->]]].
      * injection Hp as <-; left; f_equal; lia.
      * right; exists p, dc'; split; [exact Hp | f_equal; lia].
Qed.

Lemma scored_at q (chunks : list (Z * str)) (h : float * Z) :
  In h (scored inner (encode q) 0
               (index_build normalize
                            (List.map (fun dc => encode (snd dc)) chunks)))
  <-> exists p dc, nth_error chunks p = Some dc
                   /\ h = (entry_score normalize inner encode q dc,
                           Z.of_nat p).
Proof. apply scored_from. Qed.

Lemma scored_length (v : vec) (first : Z) (ix : list vec) :
  List.length (scored inner v first ix) = List.length ix.
Proof.
  revert first; induction ix as [|v' ix IH]; intros first; simpl;
    [reflexivity | rewrite IH; reflexivity].
Qed.

Lemma scored_passing q (chunks : list (Z * str)) (f : float -> bool)
      (first : Z) :
  List.length
    (filter (fun h => f (fst h))
            (scored inner (encode q) first
                    (index_build normalize
                       (List.map (fun dc => encode (snd dc)) chunks))))
  = List.length
      (filter (fun dc => f (entry_score normalize inner encode q dc)) chunks).
Proof.
  unfold index_build; revert first; induction chunks as [|dc chunks IH];
    intros first; [reflexivity|].
  simpl; fold (entry_score normalize inner encode q dc).
  destruct (f (entry_score normalize inner encode q dc)); simpl;
    rewrite IH; reflexivity.
Qed.

(** ** The index of a state the agent goes through *)

Lemma build_index (st0 : agent (list vec) json timestamp) :
  let st := build_vector_index encode (index_build normalize) st0 in
  document_chunks st <> [] ->
  vector_index st
  = Some (index_build normalize
            (List.map (fun dc => encode (snd dc)) (document_chunks st))).
Proof.
  unfold build_vector_index; simpl.
  destruct (documents st0); simpl; [congruence | reflexivity].
Qed.

Lemma reachable_index st :
  reachable encode (index_build normalize) (search inner prefer)
            json_loads fmt3 st ->
  document_chunks st <> [] ->
  vector_index st
  = Some (index_build normalize
            (List.map (fun dc => encode (snd dc)) (document_chunks st))).
Proof.
  induction 1 as [rows | st t c s m _ _ | st q top_k min_score now _ IH].
  - apply build_index.
  - apply build_index.
  - destruct (AgentMore.search_frame encode (search inner prefer) json_loads
                                     fmt3 st q top_k min_score now)
      as [log ->].
    exact IH.
Qed.

Lemma reachable_resolve st :
  reachable encode (index_build normalize) (search inner prefer)
            json_loads fmt3 st ->
  Forall (fun r => json_loads (metadata_text r) <> None) (documents st) ->
  chunks_resolve json_loads st.
Proof.
  intros Hreach Hjson.
  destruct (AgentMore.reachable_mirror Hreach) as [Hmirror _].
  unfold chunks_resolve; rewrite Hmirror.
  apply Forall_forall; intros dc Hdc.
  apply in_map_iff in Hdc; destruct Hdc as [r0 [<- Hr0]].
  destruct (@find_first _ (fun r => (row_id r =? row_id r0)%Z)
                        (documents st) r0 Hr0 (Z.eqb_refl _)) as [r Hr].
  rewrite Forall_forall in Hjson.
  destruct (AgentMore.fetchone_found _ _ Hr) as [Hin _].
  specialize (Hjson r Hin).
  destruct (json_loads (metadata_text r)) as [m|] eqn:Hm; [|congruence].
  exists r, m; split; [exact Hr | exact Hm].
Qed.

(** ** The results of a query *)

Lemma result_at_chunk st (h : float * Z) (r : result json) :
  result_at json_loads st h = Some r ->
  exists chunk,
    nth_error (document_chunks st) (Z.to_nat (snd h)) = Some chunk
    /\ content r = snd chunk /\ relevance_score r = fst h.
Proof.
  unfold result_at; intros H.
  destruct (nth_error _ _) as [chunk|]; [|discriminate].
  destruct (fetchone _ _) as [row|]; [|discriminate].
  destruct (json_loads _) as [m|]; [|discriminate].
  injection H as <-; exists chunk; repeat split.
Qed.

(** C2. Take a state the agent goes through, with the index of section
    4.2 over its N retained chunks, and a request for k hits, k positive;
    let the stored metadata parse, no score be a NaN, and the score of an
    unused slot not pass the score test. Then the search returns at most
    min(k, N) results, their scores never ascending; every result is a
    retained chunk with its score against the query; and when k is at
    least N the results are all the chunks that pass the score test, as
    many results as there are such chunks. Nothing is said of the range
    of the scores: the index is searched with the encoder's vector as it
    is. *)
Theorem search_results_ranked st q top_k min_score :
  reachable encode (index_build normalize) (search inner prefer)
            json_loads fmt3 st ->
  document_chunks st <> [] ->
  (0 < top_k)%Z ->
  Forall (fun r => json_loads (metadata_text r) <> None) (documents st) ->
  Forall (fun dc => is_nan (entry_score normalize inner encode q dc) = false)
         (document_chunks st) ->
  Float32.score_above min_score flt_lowest = false ->
  exists rs,
    search_results encode (search inner prefer) json_loads
                   st q top_k min_score
    = Some (inr rs)
    /\ (List.length rs
        <= Nat.min (Z.to_nat top_k) (List.length (document_chunks st)))%nat
    /\ ForallOrdPairs
         (fun r1 r2 =>
            PrimFloat.ltb (relevance_score r1) (relevance_score r2) = false)
         rs
    /\ Forall (fun r => exists dc,
                  In dc (document_chunks st)
                  /\ content r = snd dc
                  /\ relevance_score r
                     = entry_score normalize inner encode q dc) rs
    /\ ((Z.of_nat (List.length (document_chunks st)) <= top_k)%Z ->
        List.length rs
        = List.length
            (filter (fun dc => Float32.score_above min_score
                                 (entry_score normalize inner encode q dc))
                    (document_chunks st))
        /\ forall dc,
            In dc (document_chunks st) ->
            Float32.score_above min_score
              (entry_score normalize inner encode q dc) = true ->
            exists r, In r rs /\ content r = snd dc
                      /\ relevance_score r
                         = entry_score normalize inner encode q dc).
Proof.
  intros Hreach Hne Hk Hjson Hnan Hmin.
  pose proof (reachable_index Hreach Hne) as Hix.
  pose proof (reachable_resolve Hreach Hjson) as Hres.
  set (all := scored inner (encode q) 0
                (index_build normalize
                   (List.map (fun dc => encode (snd dc)) (document_chunks st)))).
  set (live := firstn (Z.to_nat top_k) (rank (prefer top_k all) all)).
  assert (Hall : forall h, In h all ->
            exists p dc, nth_error (document_chunks st) p = Some dc
                         /\ h = (entry_score normalize inner encode q dc,
                                 Z.of_nat p))
    by (intros h Hh; apply scored_at; exact Hh).
  assert (Hlive : forall h, In h live -> In h all)
    by (intros h Hh; apply (rank_in (prefer top_k all)), (firstn_in _ _ _ Hh)).
  assert (Hlen_all : List.length all = List.length (document_chunks st))
    by (unfold all, index_build; rewrite scored_length, !length_map;
        reflexivity).
  assert (Hpos : Forall (fun h => (0 <= snd h < len (document_chunks st))%Z)
                        live).
  { apply Forall_forall; intros h Hh.
    destruct (Hall _ (Hlive _ Hh)) as [p [dc [Hp ->]]]; simpl.
    assert (p < List.length (document_chunks st))%nat
      by (apply nth_error_Some; rewrite Hp; discriminate).
    unfold len; lia. }
  assert (Hpad : collect json_loads st min_score
                   (repeat padding (Z.to_nat top_k - List.length live))
                 = inr [])
    by (apply AgentFacts.collect_padding; exact Hmin).
  destruct (@AgentFacts.collect_live _ _ _ json_loads st min_score live _ _
              Hpos Hres Hpad) as [rs [Hrs HT]].
  rewrite app_nil_r in Hrs.
  assert (Hnan_all : Forall (fun x => is_nan (fst x) = false) all).
  { apply Forall_forall; intros h Hh.
    destruct (Hall _ Hh) as [p [dc [Hp ->]]]; simpl.
    rewrite Forall_forall in Hnan; apply Hnan, (nth_error_In _ _ Hp). }
  assert (Hcount : (List.length rs <= List.length live)%nat)
    by (rewrite (Forall2_length HT); apply filter_length_le).
  exists rs; split; [|split; [|split; [|split]]].
  - assert (Hz : (len (document_chunks st) =? 0)%Z = false)
      by (destruct (document_chunks st); [congruence | reflexivity]).
    unfold search_results, query_hits; rewrite Hix, Hz.
    unfold search; destruct (Z.leb_spec top_k 0) as [Hle|_]; [lia|].
    simpl bind; f_equal; exact Hrs.
  - unfold live in Hcount.
    rewrite length_firstn, rank_length, Hlen_all in Hcount; exact Hcount.
  - eapply AgentFacts.map_ord_pairs; [|exact HT|].
    + simpl; intros r1 h1 r2 h2 H1 H2 H.
      rewrite (AgentFacts.result_at_score _ _ _ H1),
              (AgentFacts.result_at_score _ _ _ H2); exact H.
    + apply AgentFacts.filter_ord_pairs, firstn_ord_pairs, rank_descends.
      exact Hnan_all.
  - apply Forall_forall; intros r Hr.
    destruct (AgentFacts.Forall2_left_in r HT Hr) as [h [Hh Hrh]].
    apply filter_In in Hh; destruct Hh as [Hh _].
    destruct (Hall _ (Hlive _ Hh)) as [p [dc [Hp ->]]].
    destruct (result_at_chunk _ _ Hrh) as [chunk [Hn [Hc Hs]]].
    simpl in Hn, Hs; rewrite Nat2Z.id, Hp in Hn; injection Hn as <-.
    exists dc; split; [apply (nth_error_In _ _ Hp) | split; assumption].
  - intros Hbig.
    assert (Efull : live = rank (prefer top_k all) all).
    { unfold live; apply firstn_all2; rewrite rank_length, Hlen_all; lia. }
    split.
    + rewrite (Forall2_length HT), Efull.
      unfold above; rewrite (rank_filter (prefer top_k all)).
      apply (scored_passing q (document_chunks st)
                            (Float32.score_above min_score) 0).
    + intros dc Hdc Hpass.
      apply In_nth_error in Hdc; destruct Hdc as [p Hp].
      set (h := (entry_score normalize inner encode q dc, Z.of_nat p)).
      assert (Hh : In h (filter (above min_score) live)).
      { apply filter_In; split; [|exact Hpass].
        rewrite Efull; apply (rank_in (prefer top_k all)), scored_at.
        exists p, dc; split; [exact Hp | reflexivity]. }
      destruct (AgentFacts.Forall2_right_in h HT Hh) as [r [Hr Hrh]].
      destruct (result_at_chunk _ _ Hrh) as [chunk [Hn [Hc Hs]]].
      simpl in Hn, Hs; rewrite Nat2Z.id, Hp in Hn; injection Hn as <-.
      exists r; split; [exact Hr | split; assumption].
Qed.

End Search.


End RankingFacts.

(* ================================================================== *)
(** * The search on the two instances of the index *)

Module ShelfFacts.
Import Agent Scenario Shelf FlatIndex.

(** Two copies of one chunk score the same. Asked for three hits, the
    index gives the later-built first and fills the third slot. *)
Example two_alike_hits :
  query_hits by_length shelf_search two_alike (lit "alpha.") 3
  = Some (inr [(1%float, 1%Z); (1%float, 0%Z); padding]).
Proof. vm_compute; reflexivity. Qed.

Lemma two_alike_reachable :
  reachable by_length shelf_build shelf_search toy_loads toy_fmt3 two_alike.
Proof.
  unfold two_alike, shelf_start.
  apply reach_add, reach_add, reach_init.
Defined.

Lemma search_results_ranked_witness :
  exists rs,
    shelf_results two_alike (lit "alpha.") 3 default_min_score
    = Some (inr rs)
    /\ (List.length rs
        <= Nat.min (Z.to_nat 3) (List.length (document_chunks two_alike)))%nat
    /\ ForallOrdPairs
         (fun r1 r2 =>
            PrimFloat.ltb (relevance_score r1) (relevance_score r2) = false)
         rs
    /\ Forall (fun r => exists dc,
                  In dc (document_chunks two_alike)
                  /\ content r = snd dc
                  /\ relevance_score r
                     = entry_score same closeness by_length (lit "alpha.") dc)
              rs
    /\ ((Z.of_nat (List.length (document_chunks two_alike)) <= 3)%Z ->
        List.length rs
        = List.length
            (filter (fun dc => Float32.score_above default_min_score
                                 (entry_score same closeness by_length
                                              (lit "alpha.") dc))
                    (document_chunks two_alike))
        /\ forall dc,
            In dc (document_chunks two_alike) ->
            Float32.score_above default_min_score
              (entry_score same closeness by_length (lit "alpha.") dc) = true ->
            exists r, In r rs /\ content r = snd dc
                      /\ relevance_score r
                         = entry_score same closeness by_length
                                       (lit "alpha.") dc).
Proof.
  apply (@RankingFacts.search_results_ranked
           Z unit nat by_length same closeness later_first toy_loads toy_fmt3
           two_alike (lit "alpha.") 3 default_min_score).
  - exact two_alike_reachable.
  - discriminate.
  - lia.
  - repeat constructor; discriminate.
  - repeat constructor.
  - vm_compute; reflexivity.
Defined.

(** One content stored twice is found twice with one score, so the
    scores returned are not strictly descending; and of the two it is
    the later-built that comes first. *)
Lemma two_alike_results :
  exists r1 r2,
    shelf_results two_alike (lit "alpha.") 3 default_min_score
    = Some (inr [r1; r2])
    /\ title r1 = lit "Second" /\ title r2 = lit "First"
    /\ relevance_score r1 = 1%float /\ relevance_score r2 = 1%float
    /\ strictly_descending [relevance_score r1; relevance_score r2] = false.
Proof.
  do 2 eexists; split; [vm_compute; reflexivity|].
  repeat split.
Qed.

(** Three chunks of three scores, stored lowest first, come back highest
    first. *)
Example three_notes_ranked :
  exists rs,
    shelf_results three_notes (lit "alpha.") 5 default_min_score
    = Some (inr rs)
    /\ List.map (@title unit) rs = [lit "Alpha"; lit "Beta"; lit "Pi"]
    /\ List.map (@relevance_score unit) rs
       = [1%float; 0.5%float; 0.25%float].
Proof.
  eexists; split; [vm_compute; reflexivity|].
  split; reflexivity.
Qed.

(** The query is not normalised. With an encoder whose vectors have
    length 2 the stored vector is normalised to length 1, the query is
    searched as it is, and the one entry scores 2. *)
Example raw_query_scores_two :
  exists r,
    search_results Raw.twice Raw.raw_search toy_loads Raw.one_note
                   (lit "alpha.") 1 default_min_score
    = Some (inr [r])
    /\ relevance_score r = 2%float
    /\ PrimFloat.ltb 1 (relevance_score r) = true.
Proof.
  eexists; split; [vm_compute; reflexivity|].
  split; reflexivity.
Qed.

End ShelfFacts.

(* ================================================================== *)
(** * The conversation context *)

Module DialogueFacts.
Import Agent Dialogue PyStrFacts.

Lemma last_n_last_n (A : Type) (k : nat) (l : list A) :
  last_n k (last_n k l) = last_n k l.
Proof.
  unfold last_n at 1; rewrite last_n_length.
  replace (Nat.min k (List.length l) - k)%nat with 0%nat by lia.
  reflexivity.
Qed.

Lemma last_n_truthy (A : Type) (k : nat) (l : list A) :
  (0 < k)%nat -> truthy (last_n k l) = truthy l.
Proof.
  intros Hk.
  pose proof (last_n_length k l) as H.
  destruct l as [|a l]; [reflexivity|].
  destruct (last_n k (a :: l)); [simpl in H; lia | reflexivity].
Qed.

Lemma truthy_app (A : Type) (a b : list A) :
  truthy (a ++ b) = (truthy a || truthy b)%bool.
Proof. destruct a; reflexivity. Qed.

(** A joined text is empty only if every part is. *)
Lemma join_truthy (sep : str) (parts : list str) :
  Exists (fun p => truthy p = true) parts -> truthy (join sep parts) = true.
Proof.
  induction parts as [|p rest IH]; intros H; [inversion H|].
  destruct rest as [|p' rest'].
  - inversion H as [? ? Hp|? ? Hr]; [exact Hp | inversion Hr].
  - change (join sep (p :: p' :: rest'))
      with (p ++ sep ++ join sep (p' :: rest')).
    rewrite !truthy_app.
    inversion H as [? ? Hp|? ? Hr]; subst.
    + rewrite Hp; reflexivity.
    + rewrite (IH Hr), !orb_true_r; reflexivity.
Qed.

Section Facts.
Variables index json timestamp : Type.
Variable str_title : str -> str.

Implicit Types (st : agent index json timestamp)
         (log : list (search_info json timestamp))
         (h : list (str * str)).

Lemma history_parts_last h :
  history_parts str_title (Some h)
  = if truthy h
    then [lit "Recent Conversation:"]
         ++ List.map (fun rm => str_title (fst rm) ++ lit ": " ++ snd rm)
                     (last_n 10 h)
         ++ [lit ""]
    else [].
Proof.
  destruct h as [|turn turns]; [reflexivity|].
  unfold history_parts.
  rewrite (last_n_slice (k := 10)) by lia.
  rewrite last_n_truthy by lia; reflexivity.
Qed.

Lemma search_parts_last log :
  search_parts log
  = if truthy log
    then [lit "Recent Knowledge Base Searches:"]
         ++ flat_map (fun search =>
                        [lit "Query: " ++ query search;
                         lit "Found "
                         ++ decimal (List.length (results search))
                         ++ lit " relevant documents"])
                     (last_n 3 log)
         ++ [lit ""]
    else [].
Proof.
  unfold search_parts; rewrite (last_n_slice (k := 3)) by lia; reflexivity.
Qed.

(** X20. Only the last ten turns of the history and the last three entries of
    the log reach the context. *)
Theorem context_reads_the_tails st h :
  build_conversation_context str_title st (Some h)
  = build_conversation_context
      str_title
      (set_recent st (last_n 3 (recent_knowledge_searches st)))
      (Some (last_n 10 h)).
Proof.
  unfold build_conversation_context, context_parts.
  unfold set_recent; cbn [recent_knowledge_searches].
  rewrite !history_parts_last, !search_parts_last.
  rewrite !last_n_last_n, !last_n_truthy by lia.
  reflexivity.
Qed.

(** X21. The context is the empty string exactly when there is no history
    (none given, or an empty one) and no search in the log. *)
Theorem context_empty_iff st (chat_history : option (list (str * str))) :
  build_conversation_context str_title st chat_history = []
  <-> (chat_history = None \/ chat_history = Some [])
      /\ recent_knowledge_searches st = [].
Proof.
  unfold build_conversation_context, context_parts; split.
  - intros H.
    assert (Hnone : forall parts,
               Exists (fun p => truthy p = true) parts ->
               join newline parts <> []).
    { intros parts He Hj; apply (join_truthy newline) in He.
      rewrite Hj in He; discriminate. }
    split.
    + destruct chat_history as [[|turn turns]|]; [right|exfalso|left];
        try reflexivity.
      apply (Hnone _) in H; [exact H|].
      apply Exists_app; left.
      rewrite history_parts_last; cbn [truthy].
      apply Exists_cons_hd; reflexivity.
    + destruct (recent_knowledge_searches st) as [|e log] eqn:E;
        [reflexivity|]; exfalso.
      apply (Hnone _) in H; [exact H|].
      apply Exists_app; right.
      rewrite search_parts_last; cbn [truthy].
      apply Exists_cons_hd; reflexivity.
  - intros [[->| ->] ->]; reflexivity.
Qed.

(** X22. The context has at most twenty lines' worth of parts: a heading, ten
    turns and a closing blank; a heading, three searches of two lines and
    a closing blank. *)
Theorem context_parts_bounded st (chat_history : option (list (str * str))) :
  (List.length (context_parts str_title st chat_history) <= 20)%nat.
Proof.
  unfold context_parts; rewrite length_app.
  assert (H1 : (List.length (history_parts str_title chat_history) <= 12)%nat).
  { destruct chat_history as [h|]; [|simpl; lia].
    rewrite history_parts_last.
    destruct (truthy h); [|simpl; lia].
    rewrite !length_app, length_map, last_n_length; simpl List.length; lia. }
  assert (H2 : (List.length (search_parts (recent_knowledge_searches st)) <= 8)%nat).
  { rewrite search_parts_last.
    destruct (truthy (recent_knowledge_searches st)); [|simpl; lia].
    rewrite !length_app.
    pose proof (last_n_length 3 (recent_knowledge_searches st)) as Hl.
    assert (Hf : forall l : list (search_info json timestamp),
               List.length
                 (flat_map (fun search =>
                              [lit "Query: " ++ query search;
                               lit "Found "
                               ++ decimal (List.length (results search))
                               ++ lit " relevant documents"]) l)
               = (2 * List.length l)%nat).
    { induction l as [|x l IH]; [reflexivity|].
      cbn [flat_map]; rewrite length_app, IH; cbn [List.length]; lia. }
    rewrite Hf; simpl List.length; lia. }
  lia.
Qed.

End Facts.

End DialogueFacts.

(* ================================================================== *)
(** * The e-mail handler *)

Module EmailFacts.
Import Email PyStrFacts.

Lemma starts_with_head (a c : N) (p l : str) :
  starts_with (a :: p) (c :: l) = true -> c = a.
Proof.
  simpl; intros H; apply andb_true_iff in H; destruct H as [H _].
  apply N.eqb_eq in H; congruence.
Qed.

(** The three markers begin with different letters: a line starts with
    one of them at most. *)
Lemma markers_exclusive (line : str) :
  (starts_with TO line = true ->
   starts_with SUBJECT line = false /\ starts_with BODY line = false)
  /\ (starts_with SUBJECT line = true -> starts_with BODY line = false).
Proof.
  destruct line as [|c l]; [split; discriminate|].
  split; intros H; apply starts_with_head in H; subst c; split; reflexivity
    || reflexivity.
Qed.

Lemma fold_left_snoc (A B : Type) (f : A -> B -> A) (l : list B) (x : B)
      (a : A) :
  fold_left f (l ++ [x]) a = f (fold_left f l a) x.
Proof. rewrite fold_left_app; reflexivity. Qed.

Lemma to_email_fold (lines : list str) (p : parsed) :
  to_email (fold_left parse_line lines p)
  = match find (starts_with TO) (rev lines) with
    | Some line => Some (strip (remove_all TO 0 line))
    | None => to_email p
    end.
Proof.
  induction lines as [|x lines IH] using rev_ind; [reflexivity|].
  rewrite fold_left_snoc, rev_app_distr.
  change (rev [x] ++ rev lines) with (x :: rev lines).
  cbn [find]; unfold parse_line at 1.
  destruct (starts_with TO x); [reflexivity|].
  destruct (starts_with SUBJECT x); [exact IH|].
  destruct (starts_with BODY x); [exact IH|].
  destruct (body_started _); exact IH.
Qed.

Lemma parse_line_body (p : parsed) (x : str) :
  body_lines (parse_line p x)
  = if (plain x && body_started p)%bool then body_lines p ++ [x]
    else body_lines p.
Proof.
  unfold parse_line, plain.
  destruct (starts_with TO x); [reflexivity|].
  destruct (starts_with SUBJECT x); [reflexivity|].
  destruct (starts_with BODY x); [reflexivity|].
  destruct (body_started p); reflexivity.
Qed.

Lemma parse_line_started (p : parsed) (x : str) :
  body_started (parse_line p x)
  = (body_started p || starts_with BODY x)%bool.
Proof.
  destruct (markers_exclusive x) as [Hto Hsub].
  unfold parse_line.
  destruct (starts_with TO x).
  - destruct (Hto eq_refl) as [_ ->]; rewrite orb_false_r; reflexivity.
  - destruct (starts_with SUBJECT x).
    + rewrite (Hsub eq_refl), orb_false_r; reflexivity.
    + destruct (starts_with BODY x); simpl.
      * rewrite orb_true_r; reflexivity.
      * destruct (body_started p) eqn:E; simpl; rewrite ?E; reflexivity.
Qed.

Lemma marker_not_plain (x : str) :
  starts_with BODY x = true -> plain x = false.
Proof. unfold plain; intros ->; rewrite !orb_true_r; reflexivity. Qed.

Lemma body_lines_fold (lines : list str) (p : parsed) :
  body_lines (fold_left parse_line lines p)
  = body_lines p
    ++ filter plain (if body_started p then lines else after_body lines).
Proof.
  revert p; induction lines as [|x lines IH]; intros p.
  - simpl; destruct (body_started p); rewrite app_nil_r; reflexivity.
  - change (fold_left parse_line (x :: lines) p)
      with (fold_left parse_line lines (parse_line p x)).
    rewrite IH, parse_line_body, parse_line_started; clear IH.
    cbn [after_body].
    pose proof (marker_not_plain x) as Hm.
    destruct (body_started p), (starts_with BODY x), (plain x) eqn:Hp;
      cbn [andb orb filter]; rewrite ?Hp, <- ?app_assoc;
      try reflexivity;
      discriminate (Hm eq_refl).
Qed.

(** X23. The recipient is read from the last line that starts with [TO:],
    wherever that line stands, the body included; with no such line there
    is none. *)
Theorem recipient_is_last_to_line (lines : list str) :
  to_email (parse_lines lines)
  = match find (starts_with TO) (rev lines) with
    | Some line => Some (strip (remove_all TO 0 line))
    | None => None
    end.
Proof. apply (to_email_fold lines parse_start). Qed.

Lemma after_body_none (lines : list str) :
  existsb (starts_with BODY) lines = false -> after_body lines = [].
Proof.
  induction lines as [|x lines IH]; [reflexivity|].
  cbn [existsb after_body]; intros H.
  apply orb_false_iff in H; destruct H as [-> H].
  apply IH; exact H.
Qed.

(** X24. The body is made of the lines after the first [BODY:] line, those
    that start with a marker left out; with no [BODY:] line it is
    empty. *)
Theorem body_is_after_marker (lines : list str) :
  body_lines (parse_lines lines) = filter plain (after_body lines)
  /\ (existsb (starts_with BODY) lines = false ->
      body_of (parse_lines lines) = []).
Proof.
  assert (E : body_lines (parse_lines lines)
              = filter plain (after_body lines)).
  { apply (body_lines_fold lines parse_start). }
  split; [exact E|].
  intros H; unfold body_of.
  rewrite E, (after_body_none lines H); reflexivity.
Qed.

Lemma body_is_after_marker_witness :
  body_of (parse_lines [lit "TO: a@b.c"; lit "SUBJECT: hello"]) = [].
Proof.
  apply (proj2 (body_is_after_marker [lit "TO: a@b.c"; lit "SUBJECT: hello"])).
  reflexivity.
Defined.

Section Facts.
Variable upper_ext : N -> str.
Variable lower_ext : str -> N -> str -> str.

Lemma contains_part (a p b s : str) :
  contains (a ++ p ++ b) s = true -> contains p s = true.
Proof.
  intros H; apply contains_infix in H; destruct H as [x [y ->]].
  apply contains_infix; exists (x ++ a), (b ++ y).
  rewrite <- !app_assoc; reflexivity.
Qed.

(** X25. A request is a draft request exactly when its lower case holds
    "draft": the other three keywords add nothing. *)
Theorem draft_request_iff_draft (user_message : str) :
  is_draft_request lower_ext user_message
  = contains (lit "draft") (lower lower_ext user_message).
Proof.
  unfold is_draft_request, any_in; simpl existsb.
  set (m := lower lower_ext user_message).
  destruct (contains (lit "draft") m) eqn:E; [reflexivity|].
  assert (H : forall a b, contains (a ++ lit "draft" ++ b) m = false).
  { intros a b; destruct (contains (a ++ lit "draft" ++ b) m) eqn:E';
      [|reflexivity].
    apply contains_part in E'; congruence. }
  assert (H1 : contains (lit "drafts") m = false) by exact (H [] (lit "s")).
  assert (H2 : contains (lit "save draft") m = false)
    by exact (H (lit "save ") []).
  assert (H3 : contains (lit "create draft") m = false)
    by exact (H (lit "create ") []).
  rewrite H1, H2, H3; reflexivity.
Qed.

Lemma usable_recipient (p : parsed) :
  usable upper_ext (to_email p) = true ->
  exists t, to_email p = Some t
            /\ t <> []
            /\ contains (lit "MISSING") (upper upper_ext t) = false.
Proof.
  unfold usable; destruct (to_email p) as [t|]; [|discriminate].
  intros H; apply andb_true_iff in H; destruct H as [Ht Hm].
  exists t; split; [reflexivity|]; split.
  - intros ->; discriminate.
  - apply negb_true_iff; exact Hm.
Qed.

Lemma recipient_line (email_draft t : str) :
  to_email (parse_draft email_draft) = Some t ->
  exists line,
    In line (split_on 10 [] email_draft)
    /\ starts_with TO line = true
    /\ t = strip (remove_all TO 0 line).
Proof.
  unfold parse_draft, parse_lines; rewrite to_email_fold; simpl to_email.
  destruct (find _ _) as [line|] eqn:E; [|discriminate].
  intros H; injection H as <-.
  apply find_some in E; destruct E as [Hin Hto].
  exists line; split; [apply in_rev; exact Hin|]; split;
    [exact Hto | reflexivity].
Qed.

(** X26. A message is sent only if the service is there, the request did not
    ask for a draft, and the text has a [TO:] line that gives a recipient
    which is not empty and does not hold "MISSING" in any letter case.
    A draft gets such a recipient or none at all. *)
Theorem recipient_is_checked (gmail_service : bool)
        (user_message email_draft : str) :
  let checked to :=
    exists line,
      In line (split_on 10 [] email_draft)
      /\ starts_with TO line = true
      /\ to = strip (remove_all TO 0 line)
      /\ to <> []
      /\ contains (lit "MISSING") (upper upper_ext to) = false in
  (forall to subj body,
      handle_email_request upper_ext lower_ext gmail_service
                           user_message email_draft
      = SendEmail to subj body ->
      gmail_service = true
      /\ is_draft_request lower_ext user_message = false
      /\ checked to)
  /\ (forall to subj body,
         handle_email_request upper_ext lower_ext gmail_service
                              user_message email_draft
         = CreateDraft to subj body ->
         to = [] \/ checked to).
Proof.
  intros checked.
  assert (Hcheck : usable upper_ext (to_email (parse_draft email_draft)) = true ->
                   checked (match to_email (parse_draft email_draft) with
                            | Some t => t
                            | None => []
                            end)).
  { intros Hu; destruct (usable_recipient _ Hu) as [t [Et [Hne Hm]]].
    rewrite Et.
    destruct (recipient_line _ Et) as [line [Hin [Hto Ht]]].
    exists line; repeat split; assumption. }
  unfold handle_email_request.
  destruct gmail_service; simpl negb; cbv iota; [|split; discriminate].
  destruct (is_draft_request lower_ext user_message);
    [split; [discriminate|]|split; [|
       destruct (usable upper_ext (to_email (parse_draft email_draft)));
       discriminate]].
  - intros to subj body H; injection H as <- _ _.
    destruct (usable upper_ext (to_email (parse_draft email_draft))) eqn:Hu;
      [right; apply Hcheck; reflexivity | left; reflexivity].
  - intros to subj body H.
    destruct (usable upper_ext (to_email (parse_draft email_draft))) eqn:Hu;
      simpl in H; [|discriminate].
    injection H as <- _ _.
    split; [reflexivity|]; split; [reflexivity|].
    apply Hcheck; reflexivity.
Qed.

End Facts.

End EmailFacts.

(* ================================================================== *)
(** * Uploading a document *)

Module UploadFacts.
Import Agent Upload PyText.

Lemma after_first_found (sep : N) (s r : str) :
  after_first sep s = Some r ->
  exists pre, s = pre ++ sep :: r /\ ~ In sep pre.
Proof.
  revert r; induction s as [|c s IH]; intros r H; [discriminate|].
  simpl in H; destruct (N.eqb_spec c sep) as [->|Hne].
  - injection H as <-; exists []; split; [reflexivity | intros []].
  - destruct (IH _ H) as [pre [-> Hpre]].
    exists (c :: pre); split; [reflexivity|].
    intros [E|E]; [congruence | contradiction].
Qed.

Lemma after_first_none (sep : N) (s : str) :
  after_first sep s = None -> ~ In sep s.
Proof.
  induction s as [|c s IH]; intros H; [intros []|].
  simpl in H; destruct (N.eqb_spec c sep) as [->|Hne]; [discriminate|].
  intros [E|E]; [congruence | exact (IH H E)].
Qed.

(** X27. The title of an upload is the file name up to its last dot: the name
    is the title, a dot and an extension without dots. A name without a
    dot is its own title. *)
Theorem upload_title_splits (name : str) :
  (exists ext, name = upload_title name ++ [46%N] ++ ext /\ ~ In 46%N ext)
  \/ (upload_title name = name /\ ~ In 46%N name).
Proof.
  unfold upload_title.
  destruct (after_first 46 (rev name)) as [r|] eqn:E.
  - left; destruct (after_first_found _ _ E) as [pre [Hrev Hpre]].
    exists (rev pre); split.
    + rewrite <- (rev_involutive name), Hrev, rev_app_distr; simpl.
      rewrite <- app_assoc; reflexivity.
    + intros H; apply Hpre, in_rev; exact H.
  - right; split; [reflexivity|].
    intros H; apply (after_first_none _ _ E), in_rev.
    rewrite rev_involutive; exact H.
Qed.

Section Facts.
Variables vec index json timestamp : Type.
Variable encode : str -> vec.
Variable index_build : list vec -> index.

Implicit Types (st : agent index json timestamp).

Lemma truthy_inked (text : str) :
  (truthy text && truthy (strip text))%bool = negb (blank text).
Proof.
  rewrite ChunkerMore.strip_truthy.
  destruct text as [|c text]; reflexivity.
Qed.

(** X28. A file counts as a success exactly when its text was extracted and
    is not blank. A success stores at least one row and leaves an index;
    a failure leaves the agent as it was. *)
Theorem upload_file_stores st (name : str) (text_content : option str)
        (metadata_json : str) :
  let run := upload_file encode index_build st name text_content
                         metadata_json in
  (snd run = true
   <-> exists text, text_content = Some text /\ blank text = false)
  /\ (snd run = true ->
      (List.length (documents st) < List.length (documents (fst run)))%nat
      /\ vector_index (fst run) <> None)
  /\ (snd run = false -> fst run = st).
Proof.
  intros run; subst run; unfold upload_file.
  destruct text_content as [text|].
  - rewrite truthy_inked.
    destruct (blank text) eqn:Hb; simpl.
    + split; [split; [discriminate | intros [t [E H]]; congruence]|].
      split; [discriminate | reflexivity].
    + split; [split; [intros _; exists text; split;
                                [reflexivity | exact Hb]
                     | reflexivity]|].
      split; [|discriminate].
      intros _.
      destruct (@AgentMore.add_document_inked
                  vec index json timestamp encode index_build st
                  (upload_title name) text (lit "Upload: " ++ name)
                  metadata_json Hb) as [Hl [Hi _]].
      split; assumption.
  - simpl; split; [split; [discriminate | intros [t [E _]]; discriminate]|].
    split; [discriminate | reflexivity].
Qed.

End Facts.

End UploadFacts.

(* ================================================================== *)
(** * The further properties on the small instance *)

Module ScenarioMore.
Import Agent Table Scenario PyText.

Lemma two_copies_reachable :
  reachable toy_encode toy_build toy_search toy_loads toy_fmt3 two_copies.
Proof.
  unfold two_copies, one_document, start.
  apply reach_add, reach_add, reach_init.
Defined.

Lemma two_copies_distinct : NoDup (ids (documents two_copies)).
Proof. repeat constructor; simpl; intuition discriminate. Defined.

Lemma add_document_keeps_ids_distinct_witness :
  NoDup (ids (documents
                (add_document toy_encode toy_build two_copies
                              (lit "More") (lit "beta. gamma.")
                              (lit "manual") (lit "{}")))).
Proof.
  apply (AgentMore.add_document_keeps_ids_distinct
           toy_encode toy_build two_copies (lit "More") (lit "beta. gamma.")
           (lit "manual") (lit "{}")).
  exact two_copies_distinct.
Defined.

Lemma chunks_mirror_table_witness :
  document_chunks two_copies = List.map as_chunk (documents two_copies)
  /\ (vector_index two_copies = None <-> documents two_copies = []).
Proof.
  apply (AgentMore.chunks_mirror_table two_copies_reachable).
Defined.

Lemma results_come_from_chunks_witness :
  exists rs,
    toy_results two_copies (lit "alpha") 3 default_min_score = Some (inr rs)
    /\ (List.length rs <= 3)%nat
    /\ Forall (fun res =>
                 In (content res) (List.map snd (document_chunks two_copies)))
              rs.
Proof.
  eexists; split; [vm_compute; reflexivity|].
  apply (AgentMore.results_come_from_chunks
           toy_encode toy_search toy_loads two_copies (lit "alpha") 3
           default_min_score
           (hits := [(1%float, 0%Z); (1%float, 1%Z); padding]));
    vm_compute; reflexivity.
Defined.

Lemma results_are_rows_witness :
  exists rs,
    toy_results two_copies (lit "alpha") 3 default_min_score = Some (inr rs)
    /\ Forall (fun res =>
                 exists r, In r (documents two_copies)
                           /\ content res = row_content r
                           /\ title res = row_title r
                           /\ source res = row_source r) rs.
Proof.
  eexists; split; [vm_compute; reflexivity|].
  apply (AgentMore.results_are_rows (lit "alpha") 3 default_min_score
           two_copies_reachable two_copies_distinct).
  vm_compute; reflexivity.
Defined.

Lemma newest_entry_is_the_query_witness :
  exists r rs older,
    toy_results one_document (lit "alpha") 5 default_min_score
    = Some (inr (r :: rs))
    /\ recent_knowledge_searches
         (fst (toy_query (ask_from one_document 0 3) (lit "alpha") 5
                         default_min_score 3%nat))
       = older ++ [{| query := lit "alpha"; results := r :: rs;
                      timestamp_of := 3%nat |}].
Proof.
  assert (H : exists r rs,
               search_results toy_encode toy_search toy_loads
                              (ask_from one_document 0 3) (lit "alpha") 5
                              default_min_score
               = Some (inr (r :: rs))
               /\ toy_results one_document (lit "alpha") 5 default_min_score
                  = Some (inr (r :: rs)))
    by (do 2 eexists; split; vm_compute; reflexivity).
  destruct H as [r [rs [H H1]]].
  destruct (AgentMore.newest_entry_is_the_query
              toy_encode toy_search toy_loads toy_fmt3
              (ask_from one_document 0 3) (lit "alpha") 5
              default_min_score 3%nat H)
    as [_ [older Hlog]].
  exists r, rs, older; split; [exact H1 | exact Hlog].
Defined.

Lemma add_document_then_search_witness :
  documents (add_document toy_encode toy_build start (lit "Blank")
                          (lit "   ") (lit "manual") (lit "{}"))
  = documents start
  /\ snd (toy_query one_document (lit "alpha") 5 default_min_score 0%nat)
     <> Returned EMPTY_MSG.
Proof.
  split.
  - apply (AgentMore.add_document_then_search
             toy_encode toy_build toy_search toy_loads toy_fmt3
             start (lit "Blank") (lit "   ") (lit "manual") (lit "{}")
             (lit "alpha") 5 default_min_score 0%nat).
    reflexivity.
  - apply (AgentMore.add_document_then_search
             toy_encode toy_build toy_search toy_loads toy_fmt3
             start (lit "Notes") (lit "alpha.") (lit "manual") (lit "{}")
             (lit "alpha") 5 default_min_score 0%nat).
    reflexivity.
Defined.

Lemma collect_skips_past_end_witness :
  collect toy_loads one_document default_min_score
          [(1%float, 5%Z); (1%float, 0%Z)]
  = collect toy_loads one_document default_min_score [(1%float, 0%Z)].
Proof.
  apply (AgentFacts.collect_skips_past_end
           toy_loads one_document default_min_score 1%float
           [(1%float, 0%Z)]).
  vm_compute; discriminate.
Defined.

Lemma collect_far_negative_raises_witness :
  collect toy_loads one_document default_min_score
          [(1%float, (-7)%Z); (1%float, 0%Z)]
  = inl IndexError.
Proof.
  apply (@AgentFacts.collect_far_negative_raises
           nat unit nat toy_loads one_document default_min_score 1%float
           (-7)%Z [(1%float, 0%Z)]).
  - vm_compute; reflexivity.
  - vm_compute; reflexivity.
Defined.

Lemma upload_file_stores_witness :
  let run := Upload.upload_file toy_encode toy_build start (lit "notes.txt")
                                (Some (lit "alpha.")) (lit "{}") in
  (List.length (documents start) < List.length (documents (fst run)))%nat
  /\ vector_index (fst run) <> None.
Proof.
  intros run.
  apply (UploadFacts.upload_file_stores toy_encode toy_build start
           (lit "notes.txt") (Some (lit "alpha.")) (lit "{}")).
  reflexivity.
Defined.

Lemma recipient_is_checked_witness :
  let draft :=
    lit "TO: ann@example.org" ++ newline ++ lit "SUBJECT: Hello" ++ newline
    ++ lit "BODY:" ++ newline ++ lit "See you soon." in
  Email.handle_email_request (fun _ => []) (fun _ _ _ => []) true
                             (lit "send an email to Ann") draft
  = Email.SendEmail (lit "ann@example.org") (Some (lit "Hello"))
                    (lit "See you soon.")
  /\ Email.is_draft_request (fun _ _ _ => []) (lit "send an email to Ann")
     = false.
Proof.
  intros draft.
  assert (H : Email.handle_email_request (fun _ => []) (fun _ _ _ => []) true
                (lit "send an email to Ann") draft
              = Email.SendEmail (lit "ann@example.org") (Some (lit "Hello"))
                                (lit "See you soon."))
    by (vm_compute; reflexivity).
  split; [exact H|].
  apply (proj1 (EmailFacts.recipient_is_checked
                  (fun _ => []) (fun _ _ _ => []) true
                  (lit "send an email to Ann") draft) _ _ _ H).
Defined.

End ScenarioMore.
